(** * contestthumbnailer: comment parsing, poster layout and document rendering

    A shallow embedding of [contestthumbnailer.py].  Python [int] is [Z],
    Python [str] is [string] (a character is a byte), a [parsedComment]
    dictionary is a record, a loop over a list is a fold over the loop
    state, and what the interpreter or a library may throw is an explicit
    [result].  The network, the clock and the disk are parameters: the
    search function of [re], the votes of a post, [str.format], the time
    stamp and the files. *)

From Stdlib Require Import ZArith String Ascii List Bool Lia.
From Stdlib Require DecimalString.
Import ListNotations.

Open Scope string_scope.
Open Scope list_scope.
Open Scope Z_scope.

(** ** Module constants *)

Definition DEFAULT_IMAGE_URL : string :=
  "https://files.peakd.com/file/peakd-hive/quantumg/23tSh9ZCk2m46Yy9XQeQErkwL99fsdQjsxH9A6T4WKyi7BCDs3y4Q6pE3zMfDF4ggv5TS.png".

Definition MAX_THUMBNAIL_WIDTH_IN_IMAGE : Z := 160.
Definition THUMBNAIL_MARGIN_IN_IMAGE : Z := 10.
Definition MAX_THUMBNAILS_PER_ROW_IN_IMAGE : Z := 20.
Definition THUMBNAIL_LABEL_COLOR : Z * Z * Z := (255, 255, 255).
Definition THUMBNAIL_POSTER_COLOR : Z * Z * Z * Z := (0, 0, 0, 0).

(** ** Data *)

(** The dictionary built by [_parseCommentBody] and completed by
    [_parseComments]. *)
Record parsedComment : Type := mkParsed {
  postUrl : string;
  imageUrl : string;
  author : string;
  isDefaultImage : bool
}.

(** A decoded PIL image; only its [size] = (width, height) is read. *)
Record Image : Type := mkImage { size : Z * Z }.

(** A parsedComment after [_downloadImageFromParsedComment] has added the
    ['imageObject'] key. *)
Record parsedCommentWithImage : Type := mkWithImage {
  entry : parsedComment;
  imageObject : Image
}.

Definition img_width (pc : parsedCommentWithImage) : Z := fst (size (imageObject pc)).
Definition img_height (pc : parsedCommentWithImage) : Z := snd (size (imageObject pc)).

(** ** Grid layout, pass 1: [_calculateImageHeightByParsedComments] *)

Module Pass1.

(** The loop variables [height], [col], [largest]; [closed] and [open] are
    ghost variables recording which thumbnails the column counter has put
    in the rows it already wrapped and in the row still being filled. *)
Record state : Type := mkState {
  height : Z;
  col : Z;
  largest : Z;
  closed : list (list parsedCommentWithImage);
  open : list parsedCommentWithImage
}.

Definition init : state :=
  {| height := THUMBNAIL_MARGIN_IN_IMAGE; col := 0; largest := 0;
     closed := []; open := [] |}.

(** One iteration of the [for] loop. *)
Definition step (columns : Z) (st : state) (pc : parsedCommentWithImage) : state :=
  let imageHeight := img_height pc + THUMBNAIL_MARGIN_IN_IMAGE in
  let col' := col st + 1 in
  if col' >=? columns then
    {| height := height st + largest st; col := 0; largest := 0;
       closed := closed st ++ [open st ++ [pc]]; open := [] |}
  else
    {| height := height st; col := col';
       largest := if largest st <? imageHeight then imageHeight else largest st;
       closed := closed st; open := open st ++ [pc] |}.

Definition loop (columns : Z) (l : list parsedCommentWithImage) (st : state) : state :=
  fold_left (step columns) l st.

(** What follows the loop: the flush of a partial row and the last margin. *)
Definition finish (st : state) : Z :=
  let height' :=
    if col st >? 0 then height st + (largest st + THUMBNAIL_MARGIN_IN_IMAGE)
    else height st in
  height' + THUMBNAIL_MARGIN_IN_IMAGE.

(** The rows of pass 1: the wrapped rows, then the partial row if any. *)
Definition rows_of_state (st : state) : list (list parsedCommentWithImage) :=
  closed st ++ (if col st >? 0 then [open st] else []).

End Pass1.

Definition _calculateImageHeightByParsedComments
    (parsedCommentsWithImages : list parsedCommentWithImage) (columns : Z) : Z :=
  Pass1.finish (Pass1.loop columns parsedCommentsWithImages Pass1.init).

Definition pass1_rows (parsedCommentsWithImages : list parsedCommentWithImage)
    (columns : Z) : list (list parsedCommentWithImage) :=
  Pass1.rows_of_state (Pass1.loop columns parsedCommentsWithImages Pass1.init).

(** ** Grid layout, pass 2: [_createThumbnailPoster] *)

(** What is drawn on the host image, in drawing order. *)
Inductive draw_op : Type :=
| Paste (im : Image) (xy : Z * Z)
| Text (xy : Z * Z) (text : string) (width : Z) (fill : Z * Z * Z).

Module Pass2.

(** The loop variables [xy], [col], [largest] and the drawing done so far;
    [closed] and [open] are the ghost rows, as in pass 1. *)
Record state : Type := mkState {
  xy : Z * Z;
  col : Z;
  largest : Z;
  drawn : list draw_op;
  closed : list (list parsedCommentWithImage);
  open : list parsedCommentWithImage
}.

Definition init : state :=
  {| xy := (THUMBNAIL_MARGIN_IN_IMAGE, THUMBNAIL_MARGIN_IN_IMAGE);
     col := 0; largest := 0; drawn := []; closed := []; open := [] |}.

Definition step (st : state) (pc : parsedCommentWithImage) : state :=
  let thumbnail := imageObject pc in
  let '(x, y) := xy st in
  let ops :=
    [ Paste thumbnail (x, y);
      Text (x + 3, y + 3) (author (entry pc)) MAX_THUMBNAIL_WIDTH_IN_IMAGE (0, 0, 0);
      Text (x + 2, y + 2) (author (entry pc)) MAX_THUMBNAIL_WIDTH_IN_IMAGE
           THUMBNAIL_LABEL_COLOR ] in
  let xy1 := (x + THUMBNAIL_MARGIN_IN_IMAGE + fst (size thumbnail), y) in
  let col1 := col st + 1 in
  let largest1 :=
    if largest st <? snd (size thumbnail) then snd (size thumbnail) else largest st in
  if col1 >=? MAX_THUMBNAILS_PER_ROW_IN_IMAGE then
    {| xy := (THUMBNAIL_MARGIN_IN_IMAGE, snd xy1 + THUMBNAIL_MARGIN_IN_IMAGE + largest1);
       col := 0; largest := 0; drawn := drawn st ++ ops;
       closed := closed st ++ [open st ++ [pc]]; open := [] |}
  else
    {| xy := xy1; col := col1; largest := largest1; drawn := drawn st ++ ops;
       closed := closed st; open := open st ++ [pc] |}.

Definition loop (l : list parsedCommentWithImage) (st : state) : state :=
  fold_left step l st.

Definition rows_of_state (st : state) : list (list parsedCommentWithImage) :=
  closed st ++ (if col st >? 0 then [open st] else []).

End Pass2.

(** The host image that [_createThumbnailPoster] saves. *)
Record poster : Type := mkPoster {
  poster_size : Z * Z;
  poster_color : Z * Z * Z * Z;
  poster_drawn : list draw_op
}.

Definition _createThumbnailPoster (parsedCommentsWithImage : list parsedCommentWithImage)
    (thumbnailWidth columns : Z) : poster * bool :=
  let hostSize :=
    ((thumbnailWidth + THUMBNAIL_MARGIN_IN_IMAGE) * columns + THUMBNAIL_MARGIN_IN_IMAGE,
     _calculateImageHeightByParsedComments parsedCommentsWithImage columns) in
  let st := Pass2.loop parsedCommentsWithImage Pass2.init in
  ({| poster_size := hostSize; poster_color := THUMBNAIL_POSTER_COLOR;
      poster_drawn := Pass2.drawn st |}, true).

Definition pass2_rows (parsedCommentsWithImage : list parsedCommentWithImage)
  : list (list parsedCommentWithImage) :=
  Pass2.rows_of_state (Pass2.loop parsedCommentsWithImage Pass2.init).

(** ** The layout as the specification words it *)

(** Rows of [n] consecutive thumbnails, the last one possibly shorter. *)
Fixpoint rows_fuel {A : Type} (fuel n : nat) (l : list A) : list (list A) :=
  match fuel with
  | O => []
  | S fuel' =>
      match l with
      | [] => []
      | _ :: _ => firstn n l :: rows_fuel fuel' n (skipn n l)
      end
  end.

Definition rows_of {A : Type} (n : nat) (l : list A) : list (list A) :=
  rows_fuel (length l) n l.

(** The tallest thumbnail of a row. *)
Definition row_max (r : list parsedCommentWithImage) : Z :=
  fold_right Z.max 0 (map img_height r).

Definition sum_Z (l : list Z) : Z := fold_right Z.add 0 l.

(** "The sum of per-row maximum heights plus (rows+1) margin units". *)
Definition spec_height (columns : nat) (l : list parsedCommentWithImage) : Z :=
  let rows := rows_of columns l in
  sum_Z (map row_max rows) + (Z.of_nat (length rows) + 1) * THUMBNAIL_MARGIN_IN_IMAGE.

(** A thumbnail of the given height, for examples. *)
Definition thumb (h : Z) : parsedCommentWithImage :=
  {| entry := mkParsed "https://peakd.com/p" "https://x/i.png" "a" false;
     imageObject := mkImage (MAX_THUMBNAIL_WIDTH_IN_IMAGE, h) |}.


(** ** Python values and exceptions *)

(** The exceptions that can surface in the modelled functions. *)
Inductive exn : Type :=
| ReError        (* re.error: the pattern does not compile *)
| IndexError     (* Match.group: no such group *)
| FormatError     (* str.format: KeyError, IndexError or ValueError on the template *)
| RemoteError.    (* a fault of the remote lookup *)

Inductive result (A : Type) : Type :=
| Returns (a : A)
| Raises (e : exn).

Arguments Returns {A} a.
Arguments Raises {A} e.

Definition bind {A B : Type} (r : result A) (f : A -> result B) : result B :=
  match r with
  | Returns a => f a
  | Raises e => Raises e
  end.

Notation "x <- r ;; k" := (bind r (fun x => k))
  (at level 61, r at next level, right associativity).

(** [try: body except IndexError: handler]. *)
Definition try_except_IndexError {A : Type} (body handler : result A) : result A :=
  match body with
  | Raises IndexError => handler
  | other => other
  end.

Module PyStr.

(** Truth value of a [str]: false exactly for the empty string. *)
Definition truthy (s : string) : bool := negb (String.eqb s "").

(** Truth value of a value that is [None] or a [str]. *)
Definition truthy_opt (o : option string) : bool :=
  match o with
  | None => false
  | Some s => truthy s
  end.

(** [needle in hay]. *)
Fixpoint contains (needle hay : string) : bool :=
  String.prefix needle hay ||
  match hay with
  | EmptyString => false
  | String _ hay' => contains needle hay'
  end.

(** [s.replace(old, new)] for a non-empty [old]: the occurrences are found
    from the left and do not overlap; [skip] counts the characters of an
    occurrence that are still to be dropped. *)
Fixpoint replace_from (old new : string) (skip : nat) (s : string) : string :=
  match s with
  | EmptyString => EmptyString
  | String c s' =>
      match skip with
      | S k => replace_from old new k s'
      | O =>
          if String.prefix old s
          then String.append new (replace_from old new (Nat.pred (String.length old)) s')
          else String c (replace_from old new O s')
      end
  end.

(** With an empty [old], Python puts [new] before every character and at
    the end. *)
Fixpoint intersperse (new s : string) : string :=
  match s with
  | EmptyString => new
  | String c s' => String.append new (String c (intersperse new s'))
  end.

Definition replace (s old new : string) : string :=
  match old with
  | EmptyString => intersperse new s
  | String _ _ => replace_from old new O s
  end.

End PyStr.

(** ** The [re] interface used by [_findByRegex] *)

Inductive re_flag : Type := MULTILINE.

(** A [re.Match]: the text of group 0, 1, ..., [None] for a group that took
    no part in the match. *)
Record Match : Type := mkMatch { groups : list (option string) }.

(** [m.group(i)]. *)
Definition group (m : Match) (i : nat) : result (option string) :=
  match nth_error (groups m) i with
  | Some g => Returns g
  | None => Raises IndexError
  end.

(** [re.search(pattern, text, flags)]: raises [re.error], or returns [None]
    or a match. *)
Definition search_fn : Type := string -> string -> list re_flag -> result (option Match).

(** ** An executable [re.search] for the patterns of the module

    The fragment of Python's pattern syntax that [REGEX_IMAGE_URL] and
    [REGEX_POST_URL] are written in: literal characters, escaped punctuation,
    [.], character sets with ranges, capturing and [(?:...)] groups,
    alternation, and a greedy [*] on a one-character item.  Matching is
    Python's: leftmost start, alternatives tried in order, [*] taking as much
    as it can and giving back. *)

Module Re.

Local Open Scope char_scope.
Local Open Scope nat_scope.

Inductive charset : Type :=
| AnyChar                                             (* [.] *)
| CharSet (negated : bool) (ranges : list (ascii * ascii)).

Inductive regex : Type :=
| Eps
| Chars (cs : charset)
| Star (cs : charset)
| Cat (a b : regex)
| Alt (a b : regex)
| Group (i : nat) (r : regex).

(** [Malformed]: Python's compiler rejects the pattern with [re.error].
    [Unsupported]: the pattern uses syntax outside of the fragment. *)
Inductive parse_error : Type := Malformed | Unsupported.

Definition parsed (A : Type) : Type := (parse_error + A)%type.

Definition code (c : ascii) : nat := nat_of_ascii c.

Definition is_alnum (c : ascii) : bool :=
  let n := code c in
  ((48 <=? n) && (n <=? 57)) || ((65 <=? n) && (n <=? 90)) || ((97 <=? n) && (n <=? 122)).

Definition single (c : ascii) : charset := CharSet false [(c, c)].

(** One end of an item of a character set. *)
Definition class_endpoint (s : list ascii) : parsed (ascii * list ascii) :=
  match s with
  | [] => inl Malformed
  | "\" :: [] => inl Malformed
  | "\" :: c :: s' => if is_alnum c then inl Unsupported else inr (c, s')
  | "[" :: _ => inl Unsupported
  | c :: s' => inr (c, s')
  end.

(** The items of a character set up to its closing bracket. *)
Fixpoint class_items (fuel : nat) (s : list ascii)
  : parsed (list (ascii * ascii) * list ascii) :=
  match fuel with
  | O => inl Unsupported
  | S fuel' =>
      match s with
      | [] => inl Malformed
      | "]" :: s' => inr ([], s')
      | _ =>
          match class_endpoint s with
          | inl e => inl e
          | inr (lo, s1) =>
              let single_item s1 :=
                match class_items fuel' s1 with
                | inl e => inl e
                | inr (items, rest) => inr ((lo, lo) :: items, rest)
                end in
              match s1 with
              | "-" :: "]" :: _ => single_item s1
              | "-" :: s2 =>
                  match class_endpoint s2 with
                  | inl e => inl e
                  | inr (hi, s3) =>
                      if code hi <? code lo then inl Malformed
                      else
                        match class_items fuel' s3 with
                        | inl e => inl e
                        | inr (items, rest) => inr ((lo, hi) :: items, rest)
                        end
                  end
              | _ => single_item s1
              end
          end
      end
  end.

Definition parse_class (fuel : nat) (s : list ascii) : parsed (charset * list ascii) :=
  let '(negated, s1) :=
    match s with
    | "^" :: s' => (true, s')
    | _ => (false, s)
    end in
  match s1 with
  | "]" :: _ => inl Unsupported
  | _ =>
      match class_items fuel s1 with
      | inl e => inl e
      | inr (items, rest) => inr (CharSet negated items, rest)
      end
  end.

(** Recursive descent; [g] is the number of the next capturing group.  An
    atom comes with its character set when it matches one character, which
    is what [*] may follow in the fragment. *)
Fixpoint parse_alt (fuel : nat) (s : list ascii) (g : nat)
  : parsed (regex * list ascii * nat) :=
  match fuel with
  | O => inl Unsupported
  | S fuel' =>
      match parse_seq fuel' s g with
      | inl e => inl e
      | inr (a, "|" :: s2, g1) =>
          match parse_alt fuel' s2 g1 with
          | inl e => inl e
          | inr (b, s3, g2) => inr (Alt a b, s3, g2)
          end
      | inr (a, s1, g1) => inr (a, s1, g1)
      end
  end

with parse_seq (fuel : nat) (s : list ascii) (g : nat)
  : parsed (regex * list ascii * nat) :=
  match fuel with
  | O => inl Unsupported
  | S fuel' =>
      match s with
      | [] => inr (Eps, s, g)
      | "|" :: _ | ")" :: _ => inr (Eps, s, g)
      | "*" :: _ => inl Malformed
      | "+" :: _ | "?" :: _ | "{" :: _ | "^" :: _ | "$" :: _ => inl Unsupported
      | _ =>
          match parse_atom fuel' s g with
          | inl e => inl e
          | inr (a, one, "*" :: s2, g1) =>
              match one with
              | None => inl Unsupported
              | Some cs =>
                  match parse_seq fuel' s2 g1 with
                  | inl e => inl e
                  | inr (rest, s3, g2) => inr (Cat (Star cs) rest, s3, g2)
                  end
              end
          | inr (a, _, s1, g1) =>
              match parse_seq fuel' s1 g1 with
              | inl e => inl e
              | inr (rest, s3, g2) => inr (Cat a rest, s3, g2)
              end
          end
      end
  end

with parse_atom (fuel : nat) (s : list ascii) (g : nat)
  : parsed (regex * option charset * list ascii * nat) :=
  match fuel with
  | O => inl Unsupported
  | S fuel' =>
      match s with
      | [] => inl Malformed
      | "(" :: "?" :: ":" :: s1 =>
          match parse_alt fuel' s1 g with
          | inl e => inl e
          | inr (r, ")" :: s2, g1) => inr (r, None, s2, g1)
          | inr _ => inl Malformed
          end
      | "(" :: "?" :: _ => inl Unsupported
      | "(" :: s1 =>
          match parse_alt fuel' s1 (S g) with
          | inl e => inl e
          | inr (r, ")" :: s2, g1) => inr (Group g r, None, s2, g1)
          | inr _ => inl Malformed
          end
      | "[" :: s1 =>
          match parse_class fuel' s1 with
          | inl e => inl e
          | inr (cs, s2) => inr (Chars cs, Some cs, s2, g)
          end
      | "." :: s1 => inr (Chars AnyChar, Some AnyChar, s1, g)
      | "\" :: [] => inl Malformed
      | "\" :: c :: s1 =>
          if is_alnum c then inl Unsupported
          else inr (Chars (single c), Some (single c), s1, g)
      | c :: s1 => inr (Chars (single c), Some (single c), s1, g)
      end
  end.

(** The compiled pattern and its number of capturing groups. *)
Definition parse (pattern : string) : parsed (regex * nat) :=
  let s := list_ascii_of_string pattern in
  match parse_alt (4 * length s + 8) s 1 with
  | inl e => inl e
  | inr (r, [], g) => inr (r, Nat.pred g)
  | inr (_, ")" :: _, _) => inl Malformed
  | inr _ => inl Unsupported
  end.

Definition in_charset (c : ascii) (cs : charset) : bool :=
  match cs with
  | AnyChar => negb (Ascii.eqb c "010")
  | CharSet negated ranges =>
      xorb negated
        (existsb (fun r => (code (fst r) <=? code c) && (code c <=? code (snd r))) ranges)
  end.

Definition captures : Type := list (nat * list ascii).

Definition outcome : Type := option (list ascii * captures).

(** Greedy [*]: the longest run first, then one character less, ... *)
Fixpoint star (cs : charset) (s : list ascii) (k : list ascii -> outcome) : outcome :=
  match s with
  | c :: s' =>
      if in_charset c cs then
        match star cs s' k with
        | Some r => Some r
        | None => k s
        end
      else k s
  | [] => k s
  end.

(** Backtracking match of [r] at the head of [s]; [k] is what has to match
    after it. *)
Fixpoint run (r : regex) (s : list ascii) (caps : captures)
    (k : list ascii -> captures -> outcome) : outcome :=
  match r with
  | Eps => k s caps
  | Chars cs =>
      match s with
      | c :: s' => if in_charset c cs then k s' caps else None
      | [] => None
      end
  | Star cs => star cs s (fun s' => k s' caps)
  | Cat a b => run a s caps (fun s' caps' => run b s' caps' k)
  | Alt a b =>
      match run a s caps k with
      | Some res => Some res
      | None => run b s caps k
      end
  | Group i a =>
      run a s caps
        (fun s' caps' => k s' ((i, firstn (length s - length s') s) :: caps'))
  end.

(** The leftmost match: the matched text and the captures. *)
Fixpoint search_at (r : regex) (s : list ascii) : outcome :=
  match run r s [] (fun s' caps => Some (s', caps)) with
  | Some (s', caps) => Some (firstn (length s - length s') s, caps)
  | None =>
      match s with
      | [] => None
      | _ :: s' => search_at r s'
      end
  end.

Definition capture (caps : captures) (i : nat) : option string :=
  option_map (fun kv => string_of_list_ascii (snd kv))
    (find (fun kv => Nat.eqb (fst kv) i) caps).

Definition to_match (n : nat) (found : list ascii * captures) : Match :=
  mkMatch (Some (string_of_list_ascii (fst found)) :: map (capture (snd found)) (seq 1 n)).

End Re.

(** [re.search] on the fragment.  A pattern that the parser does not accept
    is answered with [re.error]: right for a malformed pattern, while nothing
    is said here about the patterns of Python that are outside of the
    fragment.  None of the flags changes a match of the fragment. *)
Definition py_re_search : search_fn :=
  fun pattern text _ =>
    match Re.parse pattern with
    | inl _ => Raises ReError
    | inr (r, n) =>
        Returns (option_map (Re.to_match n) (Re.search_at r (list_ascii_of_string text)))
    end.

Definition REGEX_IMAGE_URL : string :=
  "((?:https://.*\.(?:gif|jpg|png|jpeg))|(?:https://images\.hive\.blog/p/[A-Za-z0-9_\-@\/]*)|(?:https://images\.ecency\.com/p/[A-Za-z0-9_\-@\/]*))".

Definition REGEX_POST_URL : string :=
  "(https://(?:peakd\.com|hive\.blog|ecency\.com)/[a-z0-9_\-@\/\.]*)".

Definition AUTHOR_BLACKLIST : list string :=
  ["abdt"; "abiproud"; "adebayo22"; "airscam00"; "aliframadhan"; "aniascs"; "anne0208";
   "aris-indonesia"; "artrage"; "assegai"; "ayahdindin"; "belovedave";
   "boeh-u-leuping"; "bulukat2seung"; "camila-jhon"; "captain70"; "chipino";
   "daniella619"; "danladi"; "deep.crypto"; "dreamchasers"; "dwixer"; "ellenklech";
   "emerline"; "ferart01"; "fibre1"; "filipz"; "findoutmark"; "fudin-jfr";
   "fundin-jfr"; "gabriella3594"; "getovertools"; "ghinamidrara"; "giftjames";
   "gomessteem"; "hafis"; "hardiericsson"; "herman-sbd"; "holy.moly"; "iamdenny";
   "icon-bassey"; "jhokenecty"; "kadyrova"; "kalkulus001"; "kamariah"; "kater001";
   "khantika"; "kingobonnaya"; "lamboe"; "lexi01"; "lilpen"; "loco88";
   "mawalampoehbujok"; "mcaspectacular"; "mcluz"; "mizuno35"; "mnzie01"; "mochi3";
   "morenxo"; "nabilswap"; "nekbungoeng"; "nellysteem"; "nodzz"; "nurudeen081";
   "oan-iata"; "oliver-liam"; "olenaginal"; "ontarget0"; "owleeya"; "peazy001";
   "pictz"; "poundrickshaw"; "princedave12"; "quimby-art"; "raquel19"; "realmaya";
   "sintiana"; "starksteem"; "steps100"; "tailah.bayu1"; "technoart"; "techy22";
   "tember"; "twenty4"; "v0lga"; "vareya"; "weenyqueen"; "weirdartist"; "whizchick";
   "yoe1974"].

(** ** Entry extraction and filtering *)

(** A beem comment, as far as the module reads it. *)
Module Comment.
Record t : Type := mk { author : string; body : string }.
End Comment.

(** The three keys that [_parseCommentBody] returns. *)
Record parsedBody : Type := mkBody {
  body_postUrl : string;
  body_imageUrl : string;
  body_author : string
}.

(** [author in AUTHOR_BLACKLIST]. *)
Definition in_blacklist (name : string) : bool :=
  existsb (String.eqb name) AUTHOR_BLACKLIST.

Section Extraction.

(** [re.search], and [str(Comment(permlink).get_votes())] with whatever the
    remote lookup raises. *)
Variable re_search : search_fn.
Variable votes_of : string -> result string.

Definition _findByRegex (text regex : string) : result string :=
  matches <- re_search regex text [MULTILINE] ;;
  match matches with
  | None => Returns ""
  | Some m =>
      try_except_IndexError
        (g <- group m 1 ;;
         if negb (PyStr.truthy_opt g) then Returns ""
         else
           g' <- group m 1 ;;
           Returns (match g' with Some s => s | None => "" end))
        (Returns "")
  end.

Definition _parseCommentBody (comment : Comment.t) : result parsedBody :=
  post <- _findByRegex (Comment.body comment) REGEX_POST_URL ;;
  image <- _findByRegex (Comment.body comment) REGEX_IMAGE_URL ;;
  Returns {| body_postUrl := post;
             body_imageUrl := PyStr.replace image "https://images.hive.blog/0x0/" "";
             body_author := Comment.author comment |}.

(** The body of the [for] loop of [_parseComments]: [None] where the loop
    runs into a [continue], the dictionary that is appended otherwise.  The
    messages printed on the way are left out. *)
Definition parse_one (comment : Comment.t) : result (option parsedComment) :=
  if in_blacklist (Comment.author comment) then Returns None
  else
    parsed <- _parseCommentBody comment ;;
    if negb (PyStr.truthy (body_postUrl parsed)) then Returns None
    else
      let postUrl1 :=
        PyStr.replace (body_postUrl parsed) "https://hive.blog" "https://peakd.com" in
      let postUrl2 := PyStr.replace postUrl1 "https://ecency.com" "https://peakd.com" in
      let hivePermlink := PyStr.replace postUrl2 "https://peakd.com/hive-174695/" "" in
      match votes_of hivePermlink with
      | Raises _ => Returns None
      | Returns votes =>
          if negb (PyStr.contains "lmac" votes) then Returns None
          else if negb (PyStr.truthy (body_imageUrl parsed)) then
            Returns (Some {| postUrl := postUrl2; imageUrl := DEFAULT_IMAGE_URL;
                             author := body_author parsed; isDefaultImage := true |})
          else
            Returns (Some {| postUrl := postUrl2; imageUrl := body_imageUrl parsed;
                             author := body_author parsed; isDefaultImage := false |})
      end.

(** The loop, from the list built so far. *)
Fixpoint parse_loop (comments : list Comment.t) (parsedComments : list parsedComment)
  : result (list parsedComment) :=
  match comments with
  | [] => Returns parsedComments
  | comment :: rest =>
      kept <- parse_one comment ;;
      parse_loop rest
        (match kept with
         | Some pc => parsedComments ++ [pc]
         | None => parsedComments
         end)
  end.

Definition _parseComments (comments : list Comment.t) : result (list parsedComment) :=
  parse_loop comments [].

End Extraction.

(** ** Document rendering *)

(** The files on disk: the content of the regular file at a path, if any. *)
Definition disk : Type := string -> option string.

Definition _loadTemplateFile (fs : disk) (filename : string) : option string :=
  match fs filename with
  | None => None                       (* not os.path.isfile(filename) *)
  | Some content => Some content       (* what textFile.read() gives *)
  end.

(** What the renderers return: [False] or the document. *)
Inductive document : Type :=
| PyFalse
| Doc (text : string).

Definition template_text (t : option string) : string :=
  match t with
  | Some s => s
  | None => ""
  end.

Section Rendering.

(** [str.format] of a template with keyword arguments. *)
Variable py_format : string -> list (string * string) -> result string.

Fixpoint md_images (imageTemplate : string) (parsedComments : list parsedComment)
    (images : string) : result string :=
  match parsedComments with
  | [] => Returns images
  | pc :: rest =>
      image <- py_format imageTemplate
                 [("postUrl", postUrl pc); ("imageUrl", imageUrl pc); ("author", author pc)] ;;
      md_images imageTemplate rest (String.append images image)
  end.

Definition _createMarkdownFromParsedComments (fs : disk)
    (parsedComments : list parsedComment) : result document :=
  let bodyTemplate := _loadTemplateFile fs "template_md_body.tpl" in
  let imageTemplate := _loadTemplateFile fs "template_md_image.tpl" in
  if negb (PyStr.truthy_opt bodyTemplate) || negb (PyStr.truthy_opt imageTemplate)
  then Returns PyFalse
  else
    images <- md_images (template_text imageTemplate) parsedComments "" ;;
    text <- py_format (template_text bodyTemplate) [("images", images)] ;;
    Returns (Doc text).

End Rendering.

Definition html_step (imageTemplate : string) (images : string) (pc : parsedComment)
  : string :=
  if negb (PyStr.truthy (imageUrl pc)) && negb (PyStr.truthy (postUrl pc)) then images
  else
    let image := PyStr.replace imageTemplate "{postUrl}" (postUrl pc) in
    let image := PyStr.replace image "{imageUrl}" (imageUrl pc) in
    let image := PyStr.replace image "{author}" (author pc) in
    String.append images image.

Definition _createHtmlMarkupFromParsedComments (fs : disk)
    (parsedComments : list parsedComment) : document :=
  let bodyTemplate := _loadTemplateFile fs "template_html_body.tpl" in
  let imageTemplate := _loadTemplateFile fs "template_html_image.tpl" in
  if negb (PyStr.truthy_opt bodyTemplate) || negb (PyStr.truthy_opt imageTemplate)
  then PyFalse
  else
    let images := fold_left (html_step (template_text imageTemplate)) parsedComments "" in
    Doc (PyStr.replace (template_text bodyTemplate) "{images}" images).

(** ** Saving the document *)

(** The name [_saveMarkdownToDisk] opens; [stamp] is
    [nowDate.strftime("%m-%d-%Y-%H-%M")]. *)
Definition save_filename (saveAsHTMLFile : bool) (specificName : option string)
    (stamp : string) : string :=
  let extension := if saveAsHTMLFile then ".html" else "md" in
  match specificName with
  | Some name => name
  | None => String.append (String.append stamp "-GeneratedImageSheet") extension
  end.

Definition write_file (fs : disk) (name content : string) : disk :=
  fun path => if String.eqb path name then Some content else fs path.

Definition _saveMarkdownToDisk (fs : disk) (stamp : string) (markdown : string)
    (saveAsHTMLFile : bool) (specificName : option string) : disk * bool :=
  (write_file fs (save_filename saveAsHTMLFile specificName stamp) markdown, true).

(** ** Sample data *)

Definition sample_votes (permlink : string) : result string :=
  if String.eqb permlink "@carol/unreachable" then Raises RemoteError
  else if String.eqb permlink "@dave/not-curated" then Returns "[{'voter': 'someone'}]"
  else Returns "[{'voter': 'lmac', 'percent': 10000}]".

Definition sample_comments : list Comment.t :=
  [ Comment.mk "abdt" "https://peakd.com/hive-174695/@abdt/entry https://x.org/a.png";
    Comment.mk "alice" "Nice round! No link here.";
    Comment.mk "bob" "My entry: https://hive.blog/hive-174695/@bob/my-post ![](https://images.hive.blog/0x0/https://files.peakd.com/x.png)";
    Comment.mk "erin" "Entry https://ecency.com/hive-174695/@erin/collage";
    Comment.mk "dave" "https://peakd.com/hive-174695/@dave/not-curated https://x.org/d.jpg";
    Comment.mk "carol" "https://peakd.com/hive-174695/@carol/unreachable https://x.org/c.gif" ].


(** The rows in which the tallest thumbnail is not the one that closes the
    row: every full row reaches its maximum before its last thumbnail. *)
Definition tallest_before_closer (n : nat) (l : list parsedCommentWithImage) : bool :=
  forallb (fun r => negb (Nat.eqb (length r) n) || (row_max (removelast r) =? row_max r))
          (rows_of n l).

(** Whether the last row is a partial one. *)
Definition trailing_partial (n : nat) (l : list parsedCommentWithImage) : bool :=
  negb (Nat.eqb (Nat.modulo (length l) n) 0).

(** The value of [largest] once pass 1 has gone through the thumbnails [r]
    of a row. *)
Definition largest_of (r : list parsedCommentWithImage) : Z :=
  fold_right Z.max 0 (map (fun pc => img_height pc + THUMBNAIL_MARGIN_IN_IMAGE) r).

(** What a row adds to [height] in pass 1: a full row when it is wrapped, by
    its closing thumbnail, and a partial row in the flush. *)
Definition row_share (n : nat) (r : list parsedCommentWithImage) : Z :=
  if Nat.eqb (length r) n then largest_of (removelast r)
  else largest_of r + THUMBNAIL_MARGIN_IN_IMAGE.

(** The five thumbnails of the specification's example. *)
Definition spec_example : list parsedCommentWithImage := map thumb [50; 40; 80; 60; 30].

(** The post URL with the two alternate hosts rewritten to the canonical
    one, and the permlink looked up for the votes, as [_parseComments]
    computes them. *)
Definition canonical_postUrl (post : string) : string :=
  PyStr.replace (PyStr.replace post "https://hive.blog" "https://peakd.com")
                "https://ecency.com" "https://peakd.com".

Definition hivePermlink_of (post : string) : string :=
  PyStr.replace (canonical_postUrl post) "https://peakd.com/hive-174695/" "".

(** Both patterns of the module compile: searching with them never raises. *)
Definition patterns_compile (re_search : search_fn) : Prop :=
  forall text,
    (exists m, re_search REGEX_POST_URL text [MULTILINE] = Returns m) /\
    (exists m, re_search REGEX_IMAGE_URL text [MULTILINE] = Returns m).

(** [s] is [l] with some elements left out, the others in their order. *)
Inductive subseq {A : Type} : list A -> list A -> Prop :=
| subseq_nil : subseq [] []
| subseq_skip (x : A) (s l : list A) : subseq s l -> subseq s (x :: l)
| subseq_keep (x : A) (s l : list A) : subseq s l -> subseq (x :: s) (x :: l).

(** [s.endswith(suffix)], read off the reversed strings. *)
Fixpoint starts_with (p l : list ascii) : bool :=
  match p, l with
  | [], _ => true
  | _ :: _, [] => false
  | a :: p', b :: l' => Ascii.eqb a b && starts_with p' l'
  end.

Definition ends_with (suffix s : string) : bool :=
  starts_with (rev (list_ascii_of_string suffix)) (rev (list_ascii_of_string s)).

(** A disk without template files, and one where the per-entry templates
    exist and are empty. *)
Definition no_templates : disk := fun _ => None.

Definition empty_image_templates : disk :=
  fun path =>
    if String.eqb path "template_md_body.tpl" then Some "# Entries {images}"
    else if String.eqb path "template_md_image.tpl" then Some ""
    else if String.eqb path "template_html_body.tpl" then Some "<div>{images}</div>"
    else if String.eqb path "template_html_image.tpl" then Some ""
    else None.

(** A [str.format] for examples: every placeholder [{key}] replaced. *)
Definition sample_format (template : string) (fields : list (string * string))
  : result string :=
  Returns (fold_left
             (fun t kv => PyStr.replace t (String.append "{" (String.append (fst kv) "}"))
                                        (snd kv))
             fields template).

(** Where the thumbnails are pasted, in order. *)
Definition pastes (ops : list draw_op) : list (Z * Z) :=
  flat_map (fun op => match op with Paste _ at_xy => [at_xy] | Text _ _ _ _ => [] end) ops.

Definition paste_positions (p : poster) : list (Z * Z) := pastes (poster_drawn p).

(** The top of every thumbnail when the rows are stacked from [y] down, each
    row one margin below the tallest thumbnail of the row above. *)
Fixpoint row_tops (rows : list (list parsedCommentWithImage)) (y : Z) : list Z :=
  match rows with
  | [] => []
  | r :: rows' =>
      repeat y (length r) ++ row_tops rows' (y + THUMBNAIL_MARGIN_IN_IMAGE + row_max r)
  end.

Definition twenty_one_thumbnails : list parsedCommentWithImage :=
  repeat (mkWithImage (mkParsed "p" "i" "a" false) (mkImage (100, 50))) 21.

(** ** Image download *)

Definition IGNORE_DEFAULT_IMAGES_IN_POSTER : bool := true.

(** How [str.format] writes an [int]. *)
Definition str_of_int (n : Z) : string :=
  DecimalString.NilZero.string_of_int (Z.to_int n).

(** What [requests.get] answers, as far as it is read: the status and the
    bytes that the chunks add up to. *)
Record response : Type := mkResponse { status_code : Z; content : string }.

(** The address of the resized rendition of an image. *)
Definition thumbnail_url (thumbnailWidth : Z) (url : string) : string :=
  String.append
    (String.append (String.append "https://images.hive.blog/" (str_of_int thumbnailWidth)) "x0/")
    url.

Section Download.

(** [requests.get(url, stream=True)] and [Image.open] on the bytes, each with
    what it may raise. *)
Variable requests_get : string -> result response.
Variable image_open : string -> result Image.

(** [None] is the [None] returned on a status other than 200. *)
Definition _downloadImageFromParsedComment (parsedComment : parsedComment)
    (thumbnailWidth : Z) : result (option parsedCommentWithImage) :=
  r <- requests_get (thumbnail_url thumbnailWidth (imageUrl parsedComment)) ;;
  if status_code r =? 200 then
    im <- image_open (content r) ;;
    Returns (Some {| entry := parsedComment; imageObject := im |})
  else Returns None.

(** The loop of [_downloadImagesFromParsedComments], with the list built so
    far and the counter of the images that did not load. *)
Fixpoint download_loop (parsedComments : list parsedComment) (thumbnailWidth : Z)
    (parsedCommentsOut : list parsedCommentWithImage) (unprocessed : Z)
  : result (list parsedCommentWithImage * Z) :=
  match parsedComments with
  | [] => Returns (parsedCommentsOut, unprocessed)
  | pc :: rest =>
      if IGNORE_DEFAULT_IMAGES_IN_POSTER && isDefaultImage pc then
        download_loop rest thumbnailWidth parsedCommentsOut unprocessed
      else
        downloaded <- _downloadImageFromParsedComment pc thumbnailWidth ;;
        match downloaded with
        | None => download_loop rest thumbnailWidth parsedCommentsOut (unprocessed + 1)
        | Some withImage =>
            download_loop rest thumbnailWidth (parsedCommentsOut ++ [withImage]) unprocessed
        end
  end.

(** The list returned, and the count that is printed when it is not 0. *)
Definition _downloadImagesFromParsedComments (parsedComments : list parsedComment)
    (thumbnailWidth : Z) : result (list parsedCommentWithImage * Z) :=
  download_loop parsedComments thumbnailWidth [] 0.

End Download.

(** ** The per-entry block of the markup *)

Definition html_snippet (imageTemplate : string) (pc : parsedComment) : string :=
  PyStr.replace
    (PyStr.replace (PyStr.replace imageTemplate "{postUrl}" (postUrl pc))
                   "{imageUrl}" (imageUrl pc))
    "{author}" (author pc).

(** The entries that the markup loop does not skip. *)
Definition html_rendered (pc : parsedComment) : bool :=
  negb (negb (PyStr.truthy (imageUrl pc)) && negb (PyStr.truthy (postUrl pc))).

Definition concat_str (l : list string) : string := fold_right String.append "" l.

(** ** [main] *)

(** The parsed command line. *)
Record args : Type := mkArgs {
  arg_a : string;
  arg_html : bool;
  arg_img : bool;
  arg_columns : Z;
  arg_thumbwidth : Z;
  arg_filename : option string
}.

(** What a run leaves: the exit code, the files, and the poster if one was
    saved. *)
Record outcome : Type := mkOutcome {
  exit_code : Z;
  files : disk;
  saved_poster : option poster
}.

(** Truth value of what a renderer returns. *)
Definition document_truthy (d : document) : bool :=
  match d with
  | PyFalse => false
  | Doc text => PyStr.truthy text
  end.

Definition document_text (d : document) : string :=
  match d with
  | PyFalse => ""
  | Doc text => text
  end.

Section Main.

Variable re_search : search_fn.
Variable votes_of : string -> result string.
Variable py_format : string -> list (string * string) -> result string.
Variable requests_get : string -> result response.
Variable image_open : string -> result Image.
(** [_fetchComments]: [None] for a link that is no post, the replies
    otherwise. *)
Variable _fetchComments : string -> result (option (list Comment.t)).
Variable stamp : string.

(** The messages printed are left out; in poster mode the canvas is taken to
    be one that can be created (no negative side), and the font and the
    saving of the image to succeed. *)
Definition main (fs : disk) (a : args) : result outcome :=
  let failure := {| exit_code := 1; files := fs; saved_poster := None |} in
  comments <- _fetchComments (arg_a a) ;;
  match comments with
  | None | Some [] => Returns failure
  | Some (c :: cs) =>
      parsedComments <- _parseComments re_search votes_of (c :: cs) ;;
      match parsedComments with
      | [] => Returns failure
      | _ :: _ =>
          if arg_img a then
            downloaded <- _downloadImagesFromParsedComments requests_get image_open
                            parsedComments (arg_thumbwidth a) ;;
            let created :=
              _createThumbnailPoster (fst downloaded) (arg_thumbwidth a) (arg_columns a) in
            if snd created
            then Returns {| exit_code := 0; files := fs; saved_poster := Some (fst created) |}
            else Returns {| exit_code := 1; files := fs; saved_poster := Some (fst created) |}
          else
            markdown <- (if arg_html a
                         then Returns (_createHtmlMarkupFromParsedComments fs parsedComments)
                         else _createMarkdownFromParsedComments py_format fs parsedComments) ;;
            if negb (document_truthy markdown) then Returns failure
            else
              let saved := _saveMarkdownToDisk fs stamp (document_text markdown)
                             (arg_html a) (arg_filename a) in
              if negb (snd saved)
              then Returns {| exit_code := 1; files := fst saved; saved_poster := None |}
              else Returns {| exit_code := 0; files := fst saved; saved_poster := None |}
      end
  end.

End Main.

(** A sample network: two images load, the others are not found. *)
Definition sample_get (url : string) : result response :=
  if String.eqb url "https://images.hive.blog/160x0/https://x.org/a.png"
  then Returns (mkResponse 200 "png-a")
  else if String.eqb url "https://images.hive.blog/160x0/https://x.org/b.jpg"
  then Returns (mkResponse 200 "jpg-b")
  else Returns (mkResponse 404 "").

Definition sample_open (bytes : string) : result Image :=
  if String.eqb bytes "png-a" then Returns (mkImage (160, 90))
  else Returns (mkImage (160, 120)).

Definition sample_parsed : list parsedComment :=
  [ mkParsed "https://peakd.com/@a/one" "https://x.org/a.png" "a" false;
    mkParsed "https://peakd.com/@e/two" DEFAULT_IMAGE_URL "e" true;
    mkParsed "https://peakd.com/@c/three" "https://x.org/gone.gif" "c" false;
    mkParsed "https://peakd.com/@b/four" "https://x.org/b.jpg" "b" false ].

(** An entry of the output of the download: not on the default image, and
    carrying the image that its rendition decoded to. *)
Definition loaded (requests_get : string -> result response)
    (image_open : string -> result Image) (thumbnailWidth : Z)
    (withImage : parsedCommentWithImage) : Prop :=
  isDefaultImage (entry withImage) = false /\
  exists r,
    requests_get (thumbnail_url thumbnailWidth (imageUrl (entry withImage))) = Returns r /\
    status_code r = 200 /\
    image_open (content r) = Returns (imageObject withImage).

(** A disk with the four templates. *)
Definition sample_templates : disk :=
  fun path =>
    if String.eqb path "template_md_body.tpl" then Some "# Entries {images}"
    else if String.eqb path "template_md_image.tpl"
    then Some "[![{author}]({imageUrl})]({postUrl}) "
    else if String.eqb path "template_html_body.tpl" then Some "<div>{images}</div>"
    else if String.eqb path "template_html_image.tpl"
    then Some "<a href='{postUrl}'><img src='{imageUrl}'>{author}</a>"
    else None.

(** A template that is missing or empty. *)
Definition unusable (template : option string) : Prop :=
  template = None \/ template = Some "".

(** The keyword arguments of the per-entry [format]. *)
Definition md_fields (pc : parsedComment) : list (string * string) :=
  [("postUrl", postUrl pc); ("imageUrl", imageUrl pc); ("author", author pc)].

(** ** The drawing of the poster, row by row *)

(** What pass 2 draws for one thumbnail at [(x, y)]: the image, then its
    author twice, dark under light. *)
Definition captioned (pc : parsedCommentWithImage) (x y : Z) : list draw_op :=
  [ Paste (imageObject pc) (x, y);
    Text (x + 3, y + 3) (author (entry pc)) MAX_THUMBNAIL_WIDTH_IN_IMAGE (0, 0, 0);
    Text (x + 2, y + 2) (author (entry pc)) MAX_THUMBNAIL_WIDTH_IN_IMAGE
         THUMBNAIL_LABEL_COLOR ].

(** A row drawn from [x] to the right at the height [y]. *)
Fixpoint draw_row (r : list parsedCommentWithImage) (x y : Z) : list draw_op :=
  match r with
  | [] => []
  | pc :: r' =>
      captioned pc x y ++ draw_row r' (x + THUMBNAIL_MARGIN_IN_IMAGE + img_width pc) y
  end.

(** Rows drawn from [y] down, each from the left margin. *)
Fixpoint draw_rows (rows : list (list parsedCommentWithImage)) (y : Z) : list draw_op :=
  match rows with
  | [] => []
  | r :: rows' =>
      draw_row r THUMBNAIL_MARGIN_IN_IMAGE y
      ++ draw_rows rows' (y + THUMBNAIL_MARGIN_IN_IMAGE + row_max r)
  end.

(** Where the cursor is after the thumbnails [r], from [x]. *)
Definition x_after (r : list parsedCommentWithImage) (x : Z) : Z :=
  fold_left (fun x pc => x + THUMBNAIL_MARGIN_IN_IMAGE + img_width pc) r x.

(** [largest] after the thumbnails [r], from [largest0]. *)
Definition tallest_after (r : list parsedCommentWithImage) (largest0 : Z) : Z :=
  fold_left (fun largest pc => if largest <? img_height pc then img_height pc else largest)
            r largest0.

(** Where one thumbnail is pasted and the thumbnail: inside the canvas of the
    given size, a margin away from its borders. *)
Definition inside_canvas (canvas : Z * Z) (pc : parsedCommentWithImage) (at_xy : Z * Z)
  : Prop :=
  THUMBNAIL_MARGIN_IN_IMAGE <= fst at_xy /\
  fst at_xy + img_width pc + THUMBNAIL_MARGIN_IN_IMAGE <= fst canvas /\
  THUMBNAIL_MARGIN_IN_IMAGE <= snd at_xy /\
  snd at_xy + img_height pc + THUMBNAIL_MARGIN_IN_IMAGE <= snd canvas.


(** * Theorems *)

(** ** Rows *)

Section Rows.

Context {A : Type}.
Variable n : nat.
Hypothesis n_pos : (1 <= n)%nat.

Lemma rows_fuel_nil (fuel : nat) : rows_fuel fuel n (@nil A) = [].
Proof. destruct fuel; reflexivity. Qed.

Lemma rows_fuel_enough (f1 f2 : nat) (l : list A) :
  (length l <= f1)%nat -> (length l <= f2)%nat ->
  rows_fuel f1 n l = rows_fuel f2 n l.
Proof.
  revert f2 l.
  induction f1 as [|f1 IH]; intros f2 l H1 H2.
  - destruct l; [now rewrite !rows_fuel_nil | simpl in H1; lia].
  - destruct l as [|x l]; [now rewrite !rows_fuel_nil|].
    destruct f2 as [|f2]; [simpl in H2; lia|].
    simpl rows_fuel. f_equal.
    apply IH; rewrite length_skipn; cbn [length] in *; lia.
Qed.

Lemma rows_of_nil : rows_of n (@nil A) = [].
Proof. reflexivity. Qed.

Lemma rows_of_cons (x : A) (l : list A) :
  rows_of n (x :: l) = firstn n (x :: l) :: rows_of n (skipn n (x :: l)).
Proof.
  unfold rows_of. simpl rows_fuel. f_equal.
  apply rows_fuel_enough; rewrite length_skipn; cbn [length]; lia.
Qed.

Lemma rows_of_short (l : list A) :
  l <> [] -> (length l <= n)%nat -> rows_of n l = [l].
Proof.
  intros Hl Hlen. destruct l as [|x l]; [congruence|].
  rewrite rows_of_cons, firstn_all2, skipn_all2 by assumption.
  reflexivity.
Qed.

Lemma rows_of_app_full (r l : list A) :
  length r = n -> rows_of n (r ++ l) = r :: rows_of n l.
Proof.
  intros Hr. destruct r as [|x r]; [simpl in Hr; lia|].
  change ((x :: r) ++ l) with (x :: (r ++ l)).
  rewrite rows_of_cons.
  change (x :: (r ++ l)) with ((x :: r) ++ l).
  rewrite firstn_app, skipn_app, Hr, Nat.sub_diag.
  rewrite <- Hr at 1 3. rewrite firstn_all, skipn_all.
  simpl. now rewrite app_nil_r.
Qed.

(** Induction along the rows: no thumbnail, a partial row, or a full row
    followed by more. *)
Lemma rows_ind (P : list A -> Prop) :
  P [] ->
  (forall l, l <> [] -> (length l < n)%nat -> P l) ->
  (forall r l, length r = n -> P l -> P (r ++ l)) ->
  forall l, P l.
Proof.
  intros Hnil Hshort Hfull l.
  remember (length l) as len eqn:Hlen.
  revert l Hlen.
  induction len as [len IH] using lt_wf_ind; intros l Hlen.
  destruct (Nat.lt_ge_cases (length l) n) as [Hlt|Hge].
  - destruct l; [exact Hnil | apply Hshort; [discriminate | exact Hlt]].
  - rewrite <- (firstn_skipn n l).
    apply Hfull.
    + apply firstn_length_le; exact Hge.
    + apply (IH (length (skipn n l))); [|reflexivity].
      rewrite length_skipn. lia.
Qed.

(** The first row tells two row widths apart. *)
Lemma rows_of_differ (m : nat) (l : list A) :
  (n < m)%nat -> (n < length l)%nat -> rows_of n l <> rows_of m l.
Proof.
  intros Hnm Hlen Heq.
  destruct l as [|x l]; [simpl in Hlen; lia|].
  unfold rows_of in Heq. simpl rows_fuel in Heq.
  injection Heq as Hhead _.
  apply (f_equal (@length A)) in Hhead.
  rewrite !length_firstn in Hhead. cbn [length] in *. lia.
Qed.

End Rows.

(** ** Pass 1 *)

Lemma largest_of_snoc (r : list parsedCommentWithImage) (pc : parsedCommentWithImage) :
  largest_of (r ++ [pc]) =
  Z.max (largest_of r) (img_height pc + THUMBNAIL_MARGIN_IN_IMAGE).
Proof.
  unfold largest_of. induction r as [|x r IH]; simpl.
  - lia.
  - rewrite IH. lia.
Qed.

Lemma row_max_snoc (r : list parsedCommentWithImage) (pc : parsedCommentWithImage) :
  row_max (r ++ [pc]) = Z.max (row_max r) (img_height pc).
Proof.
  unfold row_max. induction r as [|x r IH]; simpl.
  - lia.
  - rewrite IH. lia.
Qed.

Lemma largest_of_row_max (r : list parsedCommentWithImage) :
  r <> [] -> Forall (fun pc => 0 <= img_height pc) r ->
  largest_of r = row_max r + THUMBNAIL_MARGIN_IN_IMAGE.
Proof.
  unfold largest_of, row_max, THUMBNAIL_MARGIN_IN_IMAGE.
  induction r as [|x r IH]; intros Hne Hpos; [congruence|].
  inversion Hpos as [|? ? Hx Hr]; subst.
  destruct r as [|y r].
  - simpl. lia.
  - specialize (IH ltac:(discriminate) Hr).
    change (fold_right Z.max 0 (map (fun pc => img_height pc + 10) (x :: y :: r)))
      with (Z.max (img_height x + 10)
                  (fold_right Z.max 0 (map (fun pc => img_height pc + 10) (y :: r)))).
    change (fold_right Z.max 0 (map img_height (x :: y :: r)))
      with (Z.max (img_height x) (fold_right Z.max 0 (map img_height (y :: r)))).
    rewrite IH. lia.
Qed.

(** The loop of pass 1 from any state whose open row is shorter than a full
    one: the height it ends with and the rows it makes. *)
Lemma pass1_loop_rows (columns : Z) (l : list parsedCommentWithImage) :
  forall st : Pass1.state,
    let n := Z.to_nat (Z.max 1 columns) in
    Pass1.col st = Z.of_nat (length (Pass1.open st)) ->
    (length (Pass1.open st) < n)%nat ->
    Pass1.largest st = largest_of (Pass1.open st) ->
    Pass1.finish (Pass1.loop columns l st) =
      Pass1.height st + sum_Z (map (row_share n) (rows_of n (Pass1.open st ++ l)))
      + THUMBNAIL_MARGIN_IN_IMAGE
    /\ Pass1.rows_of_state (Pass1.loop columns l st) =
       Pass1.closed st ++ rows_of n (Pass1.open st ++ l).
Proof.
  induction l as [|pc l IH]; intros st n Hcol Hlen Hlargest.
  - cbn [Pass1.loop fold_left]. rewrite app_nil_r.
    unfold Pass1.finish, Pass1.rows_of_state.
    rewrite Z.gtb_ltb.
    destruct (Z.ltb_spec 0 (Pass1.col st)) as [Hpos|Hzero].
    + assert (Hne : Pass1.open st <> []).
      { intros E. rewrite E in Hcol. simpl in Hcol. lia. }
      rewrite rows_of_short by (try exact Hne; lia).
      unfold row_share. cbn [map].
      assert (Hpartial : Nat.eqb (length (Pass1.open st)) n = false)
        by (apply Nat.eqb_neq; lia).
      rewrite Hpartial. simpl. split; [rewrite Hlargest; lia | reflexivity].
    + assert (E : Pass1.open st = []).
      { destruct (Pass1.open st); [reflexivity | simpl in Hcol; lia]. }
      rewrite E. simpl. split; [lia | reflexivity].
  - cbn [Pass1.loop fold_left]. fold (Pass1.loop columns l (Pass1.step columns st pc)).
    assert (Hsplit : Pass1.open st ++ pc :: l = (Pass1.open st ++ [pc]) ++ l)
      by (rewrite <- app_assoc; reflexivity).
    unfold Pass1.step. rewrite Z.geb_leb.
    destruct (Z.leb_spec columns (Pass1.col st + 1)) as [Hwrap|Hstay].
    + assert (Hfull : length (Pass1.open st ++ [pc]) = n)
        by (rewrite length_app; simpl; lia).
      destruct (IH {| Pass1.height := Pass1.height st + Pass1.largest st;
                      Pass1.col := 0; Pass1.largest := 0;
                      Pass1.closed := Pass1.closed st ++ [Pass1.open st ++ [pc]];
                      Pass1.open := [] |}) as [Hh Hr];
        [reflexivity | simpl; lia | reflexivity |].
      cbn [Pass1.height Pass1.closed Pass1.open app] in Hh, Hr.
      fold n in Hh, Hr.
      rewrite Hh, Hr, Hsplit, (rows_of_app_full n ltac:(lia) _ _ Hfull).
      split.
      * cbn [map sum_Z fold_right]. fold (sum_Z (map (row_share n) (rows_of n l))).
        unfold row_share at 2. rewrite Hfull, Nat.eqb_refl, removelast_last, Hlargest.
        lia.
      * rewrite <- app_assoc. reflexivity.
    + destruct (IH {| Pass1.height := Pass1.height st; Pass1.col := Pass1.col st + 1;
                      Pass1.largest :=
                        if Pass1.largest st <? img_height pc + THUMBNAIL_MARGIN_IN_IMAGE
                        then img_height pc + THUMBNAIL_MARGIN_IN_IMAGE
                        else Pass1.largest st;
                      Pass1.closed := Pass1.closed st;
                      Pass1.open := Pass1.open st ++ [pc] |}) as [Hh Hr].
      * cbn [Pass1.col Pass1.open]. rewrite length_app. simpl. lia.
      * cbn [Pass1.open]. rewrite length_app. simpl. lia.
      * cbn [Pass1.largest Pass1.open]. rewrite largest_of_snoc, Hlargest.
        destruct (Z.ltb_spec (largest_of (Pass1.open st))
                    (img_height pc + THUMBNAIL_MARGIN_IN_IMAGE)); lia.
      * cbn [Pass1.height Pass1.closed Pass1.open] in Hh, Hr.
        fold n in Hh, Hr.
        rewrite Hh, Hr, Hsplit. split; reflexivity.
Qed.

Lemma Forall_removelast {A : Type} (P : A -> Prop) (l : list A) :
  Forall P l -> Forall P (removelast l).
Proof.
  induction 1 as [|x l Hx Hl IH]; [constructor|].
  destruct l; [constructor | simpl; constructor; assumption].
Qed.

Lemma removelast_nonempty {A : Type} (l : list A) :
  (2 <= length l)%nat -> removelast l <> [].
Proof.
  destruct l as [|x [|y l]]; simpl; intros H; try lia; discriminate.
Qed.

Lemma trailing_partial_app (n : nat) (r l : list parsedCommentWithImage) :
  length r = n -> trailing_partial n (r ++ l) = trailing_partial n l.
Proof.
  intros Hr. unfold trailing_partial. rewrite length_app, Hr.
  replace (n + length l)%nat with (length l + 1 * n)%nat by lia.
  now rewrite Nat.Div0.mod_add.
Qed.

(** What the rows add up to when no full row is closed by its tallest
    thumbnail: each row its maximum and one margin, and a partial last row
    one margin more. *)
Lemma row_shares (n : nat) (l : list parsedCommentWithImage) :
  (2 <= n)%nat ->
  Forall (fun pc => 0 <= img_height pc) l ->
  tallest_before_closer n l = true ->
  sum_Z (map (row_share n) (rows_of n l)) =
  sum_Z (map row_max (rows_of n l))
  + (Z.of_nat (length (rows_of n l)) + (if trailing_partial n l then 1 else 0))
    * THUMBNAIL_MARGIN_IN_IMAGE.
Proof.
  intros Hn. assert (Hn1 : (1 <= n)%nat) by lia.
  induction l as [ | l Hne Hlen | r l Hr IH ] using (rows_ind n Hn1);
    intros Hpos Hclose.
  - unfold trailing_partial. simpl length. rewrite Nat.Div0.mod_0_l. reflexivity.
  - rewrite rows_of_short by (try assumption; lia).
    unfold trailing_partial. rewrite Nat.mod_small by exact Hlen.
    assert (Hlen0 : Nat.eqb (length l) 0 = false)
      by (apply Nat.eqb_neq; destruct l; [congruence | discriminate]).
    assert (Hlenn : Nat.eqb (length l) n = false) by (apply Nat.eqb_neq; lia).
    rewrite Hlen0. cbn [map sum_Z fold_right length negb].
    unfold row_share. rewrite Hlenn, largest_of_row_max by assumption.
    unfold THUMBNAIL_MARGIN_IN_IMAGE. lia.
  - apply Forall_app in Hpos as [Hposr Hposl].
    unfold tallest_before_closer in Hclose.
    rewrite rows_of_app_full in Hclose by assumption.
    cbn [forallb] in Hclose. apply andb_true_iff in Hclose as [Hcr Hcl].
    rewrite Hr, Nat.eqb_refl in Hcr. cbn [negb orb] in Hcr.
    apply Z.eqb_eq in Hcr.
    rewrite rows_of_app_full, trailing_partial_app by assumption.
    cbn [map sum_Z fold_right length]. fold (sum_Z (map (row_share n) (rows_of n l))).
    fold (sum_Z (map row_max (rows_of n l))).
    rewrite (IH Hposl Hcl).
    unfold row_share at 1. rewrite Hr, Nat.eqb_refl.
    rewrite largest_of_row_max, Hcr;
      [ | apply removelast_nonempty; lia | apply Forall_removelast; exact Hposr ].
    unfold THUMBNAIL_MARGIN_IN_IMAGE. lia.
Qed.

(** ** Pass 2 *)

Lemma pass2_loop_rows (l : list parsedCommentWithImage) :
  forall st : Pass2.state,
    Pass2.col st = Z.of_nat (length (Pass2.open st)) ->
    (length (Pass2.open st) < 20)%nat ->
    Pass2.rows_of_state (Pass2.loop l st) =
    Pass2.closed st ++ rows_of 20 (Pass2.open st ++ l).
Proof.
  induction l as [|pc l IH]; intros st Hcol Hlen.
  - cbn [Pass2.loop fold_left]. rewrite app_nil_r.
    unfold Pass2.rows_of_state. rewrite Z.gtb_ltb.
    destruct (Z.ltb_spec 0 (Pass2.col st)) as [Hpos|Hzero].
    + rewrite rows_of_short; [reflexivity | lia | | lia].
      intros E. rewrite E in Hcol. simpl in Hcol. lia.
    + destruct (Pass2.open st); [reflexivity | simpl in Hcol; lia].
  - cbn [Pass2.loop fold_left]. fold (Pass2.loop l (Pass2.step st pc)).
    assert (Hsplit : Pass2.open st ++ pc :: l = (Pass2.open st ++ [pc]) ++ l)
      by (rewrite <- app_assoc; reflexivity).
    unfold Pass2.step. destruct (Pass2.xy st) as [x y].
    rewrite Z.geb_leb. unfold MAX_THUMBNAILS_PER_ROW_IN_IMAGE.
    destruct (Z.leb_spec 20 (Pass2.col st + 1)) as [Hwrap|Hstay].
    + rewrite IH; cbn [Pass2.col Pass2.open Pass2.closed length app]; try lia.
      rewrite Hsplit, (rows_of_app_full 20 ltac:(lia) (Pass2.open st ++ [pc])), <- app_assoc.
      * reflexivity.
      * rewrite length_app. simpl. lia.
    + rewrite IH; cbn [Pass2.col Pass2.open Pass2.closed].
      * rewrite Hsplit. reflexivity.
      * rewrite length_app. simpl. lia.
      * rewrite length_app. simpl. lia.
Qed.

(** Where pass 2 pastes: the thumbnails of a row at one height, the rows
    stacked. *)
Lemma skipn_repeat_app {A : Type} (y : A) (k m : nat) (rest : list A) :
  (k < m)%nat ->
  skipn k (repeat y m ++ rest) = y :: skipn (S k) (repeat y m ++ rest).
Proof.
  revert m. induction k as [|k IH]; intros m Hk.
  - destruct m; [lia | reflexivity].
  - destruct m as [|m]; [lia|].
    change (repeat y (S m) ++ rest) with (y :: (repeat y m ++ rest)).
    cbn [skipn]. apply IH. lia.
Qed.

Lemma pass2_loop_tops (l : list parsedCommentWithImage) :
  forall st : Pass2.state,
    Pass2.col st = Z.of_nat (length (Pass2.open st)) ->
    (length (Pass2.open st) < 20)%nat ->
    Pass2.largest st = row_max (Pass2.open st) ->
    map snd (pastes (Pass2.drawn (Pass2.loop l st))) =
    map snd (pastes (Pass2.drawn st))
    ++ skipn (length (Pass2.open st))
             (row_tops (rows_of 20 (Pass2.open st ++ l)) (snd (Pass2.xy st))).
Proof.
  induction l as [|pc l IH]; intros st Hcol Hlen Hlargest.
  - cbn [Pass2.loop fold_left]. rewrite app_nil_r.
    destruct (Pass2.open st) as [|x o] eqn:Hopen.
    + simpl. now rewrite app_nil_r.
    + rewrite rows_of_short by (try discriminate; lia).
      cbn [row_tops]. rewrite app_nil_r.
      rewrite <- (repeat_length (snd (Pass2.xy st)) (length (x :: o))) at 1.
      now rewrite skipn_all, app_nil_r.
  - cbn [Pass2.loop fold_left]. fold (Pass2.loop l (Pass2.step st pc)).
    assert (Hsplit : Pass2.open st ++ pc :: l = (Pass2.open st ++ [pc]) ++ l)
      by (rewrite <- app_assoc; reflexivity).
    assert (Hmax : (if Pass2.largest st <? snd (size (imageObject pc))
                    then snd (size (imageObject pc)) else Pass2.largest st)
                   = row_max (Pass2.open st ++ [pc])).
    { rewrite row_max_snoc, Hlargest. unfold img_height.
      destruct (Z.ltb_spec (row_max (Pass2.open st)) (snd (size (imageObject pc)))); lia. }
    unfold Pass2.step. destruct (Pass2.xy st) as [x y]. cbn [snd].
    rewrite Z.geb_leb. unfold MAX_THUMBNAILS_PER_ROW_IN_IMAGE.
    destruct (Z.leb_spec 20 (Pass2.col st + 1)) as [Hwrap|Hstay].
    + rewrite IH; cbn [Pass2.col Pass2.open Pass2.largest Pass2.drawn Pass2.xy
                       length app snd skipn]; try lia; try reflexivity.
      assert (Hfull : length (Pass2.open st ++ [pc]) = 20%nat)
        by (rewrite length_app; simpl; lia).
      rewrite Hsplit, (rows_of_app_full 20 ltac:(lia) _ _ Hfull).
      cbn [row_tops]. rewrite Hfull, Hmax.
      rewrite (skipn_repeat_app y (length (Pass2.open st)) 20) by lia.
      unfold pastes. rewrite flat_map_app, map_app, <- app_assoc. cbn [flat_map map app snd].
      do 2 f_equal.
      replace (S (length (Pass2.open st))) with (length (repeat y 20))
        by (rewrite repeat_length, length_app in *; cbn [length] in *; lia).
      rewrite skipn_app, skipn_all, Nat.sub_diag. reflexivity.
    + rewrite IH; cbn [Pass2.col Pass2.open Pass2.largest Pass2.drawn Pass2.xy snd].
      * rewrite Hsplit, length_app. cbn [length]. rewrite Nat.add_1_r.
        destruct ((Pass2.open st ++ [pc]) ++ l) as [|z rest] eqn:Hrow;
          [destruct (Pass2.open st); discriminate|].
        rewrite rows_of_cons by lia. cbn [row_tops].
        rewrite (skipn_repeat_app y (length (Pass2.open st))).
        -- unfold pastes. rewrite flat_map_app, map_app, <- app_assoc. reflexivity.
        -- rewrite length_firstn, <- Hrow, !length_app. cbn [length]. lia.
      * rewrite length_app. simpl. lia.
      * rewrite length_app. simpl. lia.
      * exact Hmax.
Qed.

Lemma pass2_paste_tops (l : list parsedCommentWithImage) (thumbnailWidth columns : Z) :
  map snd (paste_positions (fst (_createThumbnailPoster l thumbnailWidth columns))) =
  row_tops (rows_of 20 l) THUMBNAIL_MARGIN_IN_IMAGE.
Proof.
  unfold paste_positions, _createThumbnailPoster. cbn [fst poster_drawn].
  rewrite pass2_loop_tops; [reflexivity | reflexivity | simpl; lia | reflexivity].
Qed.

(** The height of pass 1, row by row, for every input. *)
Lemma pass1_height_rows (l : list parsedCommentWithImage) (columns : Z) :
  _calculateImageHeightByParsedComments l columns =
  sum_Z (map (row_share (Z.to_nat (Z.max 1 columns)))
             (rows_of (Z.to_nat (Z.max 1 columns)) l))
  + 2 * THUMBNAIL_MARGIN_IN_IMAGE.
Proof.
  unfold _calculateImageHeightByParsedComments.
  destruct (pass1_loop_rows columns l Pass1.init) as [Hh _];
    [reflexivity | simpl; lia | reflexivity |].
  rewrite Hh. cbn [Pass1.init Pass1.height Pass1.open app].
  unfold THUMBNAIL_MARGIN_IN_IMAGE. lia.
Qed.

Lemma pass1_rows_by_columns (l : list parsedCommentWithImage) (columns : Z) :
  pass1_rows l columns = rows_of (Z.to_nat (Z.max 1 columns)) l.
Proof.
  unfold pass1_rows.
  destruct (pass1_loop_rows columns l Pass1.init) as [_ Hr];
    [reflexivity | simpl; lia | reflexivity | exact Hr].
Qed.

Lemma pass2_rows_by_constant (l : list parsedCommentWithImage) :
  pass2_rows l = rows_of 20 l.
Proof.
  unfold pass2_rows. rewrite pass2_loop_rows; [reflexivity | reflexivity | simpl; lia].
Qed.

(** ** The two passes *)

(** C1 (as amended).  For every column count of at least 2 and every sequence
    of thumbnails of non-negative height in which every full row reaches its
    maximum height before its closing thumbnail, pass 1 returns the sum of the
    per-row maximum heights plus (rows + 2) margin units, and one margin unit
    more when the last row is partial. *)
Theorem pass1_height_by_rows (l : list parsedCommentWithImage) (columns : Z) :
  2 <= columns ->
  Forall (fun pc => 0 <= img_height pc) l ->
  tallest_before_closer (Z.to_nat columns) l = true ->
  _calculateImageHeightByParsedComments l columns =
  sum_Z (map row_max (rows_of (Z.to_nat columns) l))
  + (Z.of_nat (length (rows_of (Z.to_nat columns) l)) + 2
     + (if trailing_partial (Z.to_nat columns) l then 1 else 0))
    * THUMBNAIL_MARGIN_IN_IMAGE.
Proof.
  intros Hcolumns Hpos Hclose.
  unfold _calculateImageHeightByParsedComments.
  destruct (pass1_loop_rows columns l Pass1.init) as [Hh _];
    [reflexivity | simpl; lia | reflexivity |].
  rewrite Hh. cbn [Pass1.init Pass1.height Pass1.open app].
  replace (Z.max 1 columns) with columns by lia.
  rewrite row_shares by (try assumption; lia).
  unfold THUMBNAIL_MARGIN_IN_IMAGE. lia.
Qed.

(** The example of the specification, under C1 as amended: 220. *)
Lemma pass1_height_by_rows_example :
  2 <= 2 /\
  Forall (fun pc => 0 <= img_height pc) spec_example /\
  tallest_before_closer (Z.to_nat 2) spec_example = true /\
  _calculateImageHeightByParsedComments spec_example 2 = (50 + 80 + 30) + (3 + 2 + 1) * 10.
Proof.
  assert (Hpos : Forall (fun pc => 0 <= img_height pc) spec_example)
    by (repeat constructor; discriminate).
  split; [discriminate|].
  split; [exact Hpos|].
  split; [reflexivity|].
  exact (eq_trans (pass1_height_by_rows spec_example 2 ltac:(discriminate) Hpos eq_refl)
                  eq_refl).
Defined.

(** C1 as stated fails on its own example: pass 1 returns 220, neither the
    210 of the example nor the 200 that "(rows + 1) margin units" gives. *)
Lemma pass1_height_not_as_stated :
  _calculateImageHeightByParsedComments spec_example 2 = 220 /\
  spec_height 2 spec_example = 200 /\
  _calculateImageHeightByParsedComments spec_example 2 <> spec_height 2 spec_example /\
  _calculateImageHeightByParsedComments spec_example 2 <> 210.
Proof.
  split; [reflexivity|]. split; [reflexivity|]. split; discriminate.
Qed.

(** A row closed by its tallest thumbnail is measured without it: two
    thumbnails of heights 40 and 80 in one row of two give 70. *)
Example pass1_misses_closing_thumbnail :
  _calculateImageHeightByParsedComments (map thumb [40; 80]) 2 = 70 /\
  _calculateImageHeightByParsedComments (map thumb [40; 80]) 1 = 20.
Proof. split; reflexivity. Qed.

(** Twenty-one thumbnails 100 wide and 50 high on a poster of two columns:
    pass 1 counts eleven rows, pass 2 pastes twenty thumbnails in the first
    row and the last one below. *)
Example two_columns_twenty_one_thumbnails :
  length (pass1_rows twenty_one_thumbnails 2) = 11%nat /\
  map (@length _) (pass2_rows twenty_one_thumbnails) = [20%nat; 1%nat] /\
  map snd (paste_positions (fst (_createThumbnailPoster twenty_one_thumbnails 100 2))) =
    repeat 10 20 ++ [70] /\
  nth 20 (paste_positions (fst (_createThumbnailPoster twenty_one_thumbnails 100 2))) (0, 0)
    = (10, 70) /\
  poster_size (fst (_createThumbnailPoster twenty_one_thumbnails 100 2)) = (230, 690).
Proof. vm_compute. repeat split. Qed.

(** C2 (as amended).  Pass 1 makes rows of [columns] thumbnails (of one for a
    [columns] below 1) and adds up its height over these rows; pass 2 makes
    rows of 20 whatever [columns] is, draws the same for every [columns] and
    pastes every row of 20 at one height; for a [columns] other than 20 the
    two row partitions differ exactly when the sequence is longer than the
    smaller of the two row widths. *)
Theorem passes_wrap_differently (l : list parsedCommentWithImage) (columns : Z) :
  columns <> MAX_THUMBNAILS_PER_ROW_IN_IMAGE ->
  pass1_rows l columns = rows_of (Z.to_nat (Z.max 1 columns)) l /\
  _calculateImageHeightByParsedComments l columns =
    sum_Z (map (row_share (Z.to_nat (Z.max 1 columns)))
               (rows_of (Z.to_nat (Z.max 1 columns)) l))
    + 2 * THUMBNAIL_MARGIN_IN_IMAGE /\
  pass2_rows l = rows_of (Z.to_nat MAX_THUMBNAILS_PER_ROW_IN_IMAGE) l /\
  (forall thumbnailWidth columns',
      poster_drawn (fst (_createThumbnailPoster l thumbnailWidth columns)) =
      poster_drawn (fst (_createThumbnailPoster l thumbnailWidth columns'))) /\
  (forall thumbnailWidth,
      map snd (paste_positions (fst (_createThumbnailPoster l thumbnailWidth columns))) =
      row_tops (rows_of (Z.to_nat MAX_THUMBNAILS_PER_ROW_IN_IMAGE) l)
               THUMBNAIL_MARGIN_IN_IMAGE) /\
  (pass1_rows l columns <> pass2_rows l <->
   Z.min (Z.max 1 columns) MAX_THUMBNAILS_PER_ROW_IN_IMAGE < Z.of_nat (length l)).
Proof.
  unfold MAX_THUMBNAILS_PER_ROW_IN_IMAGE. intros Hcolumns.
  change (Z.to_nat 20) with 20%nat.
  split; [apply pass1_rows_by_columns|].
  split; [apply pass1_height_rows|].
  split; [apply pass2_rows_by_constant|].
  split; [reflexivity|].
  split; [intros w; apply pass2_paste_tops|].
  rewrite pass1_rows_by_columns, pass2_rows_by_constant.
  split.
  - intros Hdiff.
    destruct (Z.lt_ge_cases (Z.min (Z.max 1 columns) 20) (Z.of_nat (length l)))
      as [Hlong|Hshort]; [exact Hlong|].
    exfalso. apply Hdiff.
    destruct l as [|pc l]; [reflexivity|].
    rewrite !rows_of_short; try reflexivity; try discriminate; cbn [length] in *; lia.
  - intros Hlong.
    destruct (Z.lt_ge_cases (Z.max 1 columns) 20) as [Hlt|Hge].
    + apply rows_of_differ; lia.
    + intros Heq. symmetry in Heq. revert Heq. apply rows_of_differ; lia.
Qed.

Lemma passes_wrap_differently_witness :
  3 <> MAX_THUMBNAILS_PER_ROW_IN_IMAGE /\
  pass1_rows spec_example 3 <> pass2_rows spec_example.
Proof.
  split; [discriminate|].
  destruct (passes_wrap_differently spec_example 3 ltac:(discriminate))
    as [_ [_ [_ [_ [_ Hdiffer]]]]].
  apply Hdiffer. reflexivity.
Defined.

(** C2 as stated fails on a sequence that fits in one row of either width:
    one thumbnail and [columns = 2] give the same single row in both passes. *)
Lemma passes_agree_on_short_sequence :
  2 <> MAX_THUMBNAILS_PER_ROW_IN_IMAGE /\
  pass1_rows [thumb 50] 2 = pass2_rows [thumb 50].
Proof. split; [discriminate | reflexivity]. Qed.

(** ** Strings *)

Example replace_hosts :
  PyStr.replace "see https://hive.blog/@a/b and https://hive.blog/@c/d"
                "https://hive.blog" "https://peakd.com"
  = "see https://peakd.com/@a/b and https://peakd.com/@c/d".
Proof. reflexivity. Qed.

Example replace_does_not_overlap :
  PyStr.replace "aaaaa" "aa" "b" = "bba" /\
  PyStr.replace "xabcabcab" "abc" "" = "xab" /\
  PyStr.replace "abc" "" "-" = "-a-b-c-".
Proof. repeat split. Qed.

Example contains_lmac :
  PyStr.contains "lmac" "[{'voter': 'lmac'}]" = true /\
  PyStr.contains "lmac" "[{'voter': 'lmc'}]" = false.
Proof. split; reflexivity. Qed.

Lemma truthy_nonempty (s : string) : PyStr.truthy s = true <-> s <> "".
Proof.
  unfold PyStr.truthy. rewrite negb_true_iff. apply String.eqb_neq.
Qed.

Lemma append_nonempty_l (a b : string) : a <> "" -> String.append a b <> "".
Proof. destruct a; [congruence | discriminate]. Qed.

(** Replacing by a non-empty text never empties a non-empty string. *)
Lemma replace_nonempty (s old new : string) :
  s <> "" -> new <> "" -> PyStr.replace s old new <> "".
Proof.
  intros Hs Hnew. unfold PyStr.replace.
  destruct old as [|o old].
  - destruct s; [congruence|]. simpl. apply append_nonempty_l, Hnew.
  - destruct s as [|c s]; [congruence|].
    cbn [PyStr.replace_from].
    destruct (String.prefix (String o old) (String c s)).
    + apply append_nonempty_l, Hnew.
    + discriminate.
Qed.

Lemma canonical_postUrl_nonempty (post : string) :
  post <> "" -> canonical_postUrl post <> "".
Proof.
  intros H. unfold canonical_postUrl.
  repeat apply replace_nonempty; (exact H || discriminate).
Qed.

Lemma in_blacklist_In (name : string) :
  in_blacklist name = true <-> In name AUTHOR_BLACKLIST.
Proof.
  unfold in_blacklist. rewrite existsb_exists. split.
  - intros [x [Hin Heq]]. apply String.eqb_eq in Heq. now subst.
  - intros Hin. exists name. split; [exact Hin | apply String.eqb_refl].
Qed.

(** ** Extraction *)

Section ExtractionFacts.

Variable re_search : search_fn.
Variable votes_of : string -> result string.

Lemma group_raises_IndexError (m : Match) (i : nat) (e : exn) :
  group m i = Raises e -> e = IndexError.
Proof.
  unfold group. destruct (nth_error (groups m) i); [discriminate|].
  now intros [= <-].
Qed.

(** [_findByRegex] by the outcome of the search. *)
Lemma findByRegex_cases (text regex : string) :
  _findByRegex re_search text regex =
  match re_search regex text [MULTILINE] with
  | Raises e => Raises e
  | Returns None => Returns ""
  | Returns (Some m) =>
      match group m 1 with
      | Returns (Some g) => Returns g
      | _ => Returns ""
      end
  end.
Proof.
  unfold _findByRegex.
  destruct (re_search regex text [MULTILINE]) as [[m|]|e]; cbn [bind]; try reflexivity.
  destruct (group m 1) as [[g|]|e] eqn:Hgroup;
    cbn [bind try_except_IndexError PyStr.truthy_opt].
  - unfold PyStr.truthy. destruct (String.eqb_spec g ""); [subst|]; reflexivity.
  - reflexivity.
  - apply group_raises_IndexError in Hgroup. subst e. reflexivity.
Qed.

Lemma parseCommentBody_author (comment : Comment.t) (parsed : parsedBody) :
  _parseCommentBody re_search comment = Returns parsed ->
  body_author parsed = Comment.author comment.
Proof.
  unfold _parseCommentBody.
  destruct (_findByRegex re_search (Comment.body comment) REGEX_POST_URL); [|discriminate].
  destruct (_findByRegex re_search (Comment.body comment) REGEX_IMAGE_URL); [|discriminate].
  cbn [bind]. now intros [= <-].
Qed.

(** A comment that is kept: who wrote it and what the entry holds. *)
Lemma parseOne_kept (comment : Comment.t) (pc : parsedComment) :
  parse_one re_search votes_of comment = Returns (Some pc) ->
  in_blacklist (Comment.author comment) = false /\
  author pc = Comment.author comment /\
  postUrl pc <> "" /\
  exists parsed,
    _parseCommentBody re_search comment = Returns parsed /\
    ((body_imageUrl parsed = "" /\ imageUrl pc = DEFAULT_IMAGE_URL /\
      isDefaultImage pc = true) \/
     (body_imageUrl parsed <> "" /\ imageUrl pc = body_imageUrl parsed /\
      isDefaultImage pc = false)).
Proof.
  unfold parse_one.
  destruct (in_blacklist (Comment.author comment)); [discriminate|].
  destruct (_parseCommentBody re_search comment) as [parsed|e] eqn:Hbody; [|discriminate].
  apply parseCommentBody_author in Hbody as Hauthor. cbn [bind].
  destruct (PyStr.truthy (body_postUrl parsed)) eqn:Hpost; cbn [negb]; [|discriminate].
  apply truthy_nonempty in Hpost.
  destruct (votes_of _) as [votes|e]; [|discriminate].
  destruct (negb (PyStr.contains "lmac" votes)); [discriminate|].
  destruct (PyStr.truthy (body_imageUrl parsed)) eqn:Himage; cbn [negb];
    intros [= <-]; cbn [author postUrl imageUrl isDefaultImage];
    (split; [reflexivity|]); (split; [exact Hauthor|]);
    (split; [apply (canonical_postUrl_nonempty _ Hpost)|]);
    exists parsed; (split; [reflexivity|]).
  - right. apply truthy_nonempty in Himage. auto.
  - left. unfold PyStr.truthy in Himage. apply negb_false_iff, String.eqb_eq in Himage.
    auto.
Qed.

(** A comment that passes every check, by what is extracted from it. *)
Lemma parseOne_passes (comment : Comment.t) (parsed : parsedBody) (votes : string) :
  in_blacklist (Comment.author comment) = false ->
  _parseCommentBody re_search comment = Returns parsed ->
  body_postUrl parsed <> "" ->
  votes_of (hivePermlink_of (body_postUrl parsed)) = Returns votes ->
  PyStr.contains "lmac" votes = true ->
  parse_one re_search votes_of comment =
  Returns (Some {| postUrl := canonical_postUrl (body_postUrl parsed);
                   imageUrl := if PyStr.truthy (body_imageUrl parsed)
                               then body_imageUrl parsed else DEFAULT_IMAGE_URL;
                   author := Comment.author comment;
                   isDefaultImage := negb (PyStr.truthy (body_imageUrl parsed)) |}).
Proof.
  intros Hblack Hbody Hpost Hvotes Hlmac.
  apply parseCommentBody_author in Hbody as Hauthor.
  unfold parse_one. rewrite Hblack, Hbody. cbn [bind].
  apply truthy_nonempty in Hpost. rewrite Hpost. cbn [negb].
  fold (canonical_postUrl (body_postUrl parsed)).
  fold (hivePermlink_of (body_postUrl parsed)).
  rewrite Hvotes, Hlmac, Hauthor. cbn [negb].
  destruct (PyStr.truthy (body_imageUrl parsed)); reflexivity.
Qed.

(** The loop keeps what it had and appends, in the order of the comments,
    what the comments it keeps become. *)
Lemma parseLoop_subseq (comments : list Comment.t) :
  forall acc out,
    parse_loop re_search votes_of comments acc = Returns out ->
    exists sources kept,
      out = acc ++ kept /\
      subseq sources comments /\
      Forall2 (fun comment pc => parse_one re_search votes_of comment = Returns (Some pc)) sources kept.
Proof.
  induction comments as [|comment rest IH]; intros acc out.
  - cbn [parse_loop]. intros [= <-].
    exists [], []. rewrite app_nil_r. repeat split; constructor.
  - cbn [parse_loop].
    destruct (parse_one re_search votes_of comment) as [[pc|]|e] eqn:Hone; cbn [bind]; [| |discriminate];
      intros Hloop; destruct (IH _ _ Hloop) as [sources [kept [Hout [Hsub Hall]]]].
    + exists (comment :: sources), (pc :: kept).
      rewrite Hout, <- app_assoc.
      repeat split; [constructor; exact Hsub | constructor; assumption].
    + exists sources, kept.
      repeat split; [exact Hout | constructor; exact Hsub | exact Hall].
Qed.

(** Nothing that is to be kept is lost. *)
Lemma parseLoop_keeps (comments : list Comment.t) :
  forall acc out,
    parse_loop re_search votes_of comments acc = Returns out ->
    (forall pc, In pc acc -> In pc out) /\
    (forall comment pc,
        In comment comments -> parse_one re_search votes_of comment = Returns (Some pc) -> In pc out).
Proof.
  induction comments as [|comment rest IH]; intros acc out.
  - cbn [parse_loop]. intros [= <-]. split; [auto | intros ? ? []].
  - cbn [parse_loop].
    destruct (parse_one re_search votes_of comment) as [[pc|]|e] eqn:Hone; cbn [bind]; [| |discriminate];
      intros Hloop; destruct (IH _ _ Hloop) as [Hacc Hrest]; split.
    + intros pc' Hin. apply Hacc, in_or_app. now left.
    + intros comment' pc' [<-|Hin] Hkept.
      * rewrite Hone in Hkept. injection Hkept as <-.
        apply Hacc, in_or_app. right. now left.
      * eapply Hrest; eassumption.
    + exact Hacc.
    + intros comment' pc' [<-|Hin] Hkept.
      * rewrite Hone in Hkept. discriminate.
      * eapply Hrest; eassumption.
Qed.

Hypothesis compiles : patterns_compile re_search.

Lemma parseCommentBody_returns (comment : Comment.t) :
  exists parsed, _parseCommentBody re_search comment = Returns parsed.
Proof.
  unfold _parseCommentBody.
  destruct (compiles (Comment.body comment)) as [[mp Hp] [mi Hi]].
  rewrite !findByRegex_cases, Hp, Hi.
  destruct mp as [mp|]; [destruct (group mp 1) as [[?|]|?]|];
    (destruct mi as [mi|]; [destruct (group mi 1) as [[?|]|?]|]);
    cbn [bind]; eexists; reflexivity.
Qed.

Lemma parseOne_returns (comment : Comment.t) :
  exists kept, parse_one re_search votes_of comment = Returns kept.
Proof.
  unfold parse_one.
  destruct (in_blacklist (Comment.author comment)); [eexists; reflexivity|].
  destruct (parseCommentBody_returns comment) as [parsed ->]. cbn [bind].
  destruct (negb (PyStr.truthy (body_postUrl parsed))); [eexists; reflexivity|].
  destruct (votes_of _) as [votes|e]; [|eexists; reflexivity].
  destruct (negb (PyStr.contains "lmac" votes)); [eexists; reflexivity|].
  destruct (negb (PyStr.truthy (body_imageUrl parsed))); eexists; reflexivity.
Qed.

Lemma parseLoop_returns (comments : list Comment.t) :
  forall acc, exists out, parse_loop re_search votes_of comments acc = Returns out.
Proof.
  induction comments as [|comment rest IH]; intros acc.
  - eexists; reflexivity.
  - cbn [parse_loop].
    destruct (parseOne_returns comment) as [kept ->]. cbn [bind]. apply IH.
Qed.

End ExtractionFacts.

Lemma subseq_In {A : Type} (s l : list A) (x : A) : subseq s l -> In x s -> In x l.
Proof.
  induction 1 as [|y s l _ IH|y s l _ IH]; simpl; intros Hin; auto.
  destruct Hin; auto.
Qed.

(** With patterns that compile, [_parseComments] returns. *)
Lemma parseComments_returns (re_search : search_fn) (votes_of : string -> result string) :
  patterns_compile re_search ->
  forall comments, exists out, _parseComments re_search votes_of comments = Returns out.
Proof.
  intros Hcompile comments. apply parseLoop_returns, Hcompile.
Qed.

(** The fragment engine compiles both patterns of the module. *)
Lemma py_patterns_compile : patterns_compile py_re_search.
Proof.
  intros text. unfold py_re_search.
  assert (Hpost : exists r n, Re.parse REGEX_POST_URL = inr (r, n))
    by (vm_compute; eauto).
  assert (Himage : exists r n, Re.parse REGEX_IMAGE_URL = inr (r, n))
    by (vm_compute; eauto).
  destruct Hpost as [r1 [n1 ->]], Himage as [r2 [n2 ->]].
  split; eexists; reflexivity.
Qed.

(** ** The parse and filter stage *)

Lemma Forall2_Forall_r {A B : Type} (R : A -> B -> Prop) (Q : B -> Prop)
    (la : list A) (lb : list B) :
  Forall2 R la lb ->
  (forall a b, In a la -> R a b -> Q b) ->
  Forall Q lb.
Proof.
  induction 1 as [|a b la lb Hab _ IH]; intros HQ; constructor.
  - apply (HQ a b); [now left | exact Hab].
  - apply IH. intros a' b' Hin. apply HQ. now right.
Qed.

Example parseComments_sample :
  _parseComments py_re_search sample_votes sample_comments =
  Returns
    [ {| postUrl := "https://peakd.com/hive-174695/@bob/my-post";
         imageUrl := "https://hive.blog/hive-174695/@bob/my-post ![](https://files.peakd.com/x.png";
         author := "bob"; isDefaultImage := false |};
      {| postUrl := "https://peakd.com/hive-174695/@erin/collage";
         imageUrl := DEFAULT_IMAGE_URL;
         author := "erin"; isDefaultImage := true |} ].
Proof. vm_compute. reflexivity. Qed.

(** C3.  [_parseComments] returns whenever the two patterns compile, and every
    entry it returns has a non-empty post URL and a non-empty image URL: the
    fallback image, flagged, or the image URL extracted from one of the
    comments. *)
Theorem parsed_entries_have_urls (re_search : search_fn)
    (votes_of : string -> result string) (comments : list Comment.t) :
  (patterns_compile re_search ->
   exists out, _parseComments re_search votes_of comments = Returns out) /\
  (forall out,
      _parseComments re_search votes_of comments = Returns out ->
      Forall (fun pc =>
                postUrl pc <> "" /\ imageUrl pc <> "" /\
                ((isDefaultImage pc = true /\ imageUrl pc = DEFAULT_IMAGE_URL) \/
                 (isDefaultImage pc = false /\
                  exists comment parsed,
                    In comment comments /\
                    _parseCommentBody re_search comment = Returns parsed /\
                    imageUrl pc = body_imageUrl parsed)))
             out).
Proof.
  split.
  - intros Hcompile. apply parseComments_returns, Hcompile.
  - intros out Hout.
    destruct (parseLoop_subseq _ _ _ _ _ Hout) as [sources [kept [-> [Hsub Hall]]]].
    cbn [app]. eapply Forall2_Forall_r; [exact Hall|].
    intros comment pc Hin Hone. cbv beta in Hone.
    destruct (parseOne_kept _ _ _ _ Hone)
      as [_ [_ [Hpost [parsed [Hbody [[Hempty [Himage Hflag]]|[Hfull [Himage Hflag]]]]]]]].
    + repeat split; [exact Hpost | rewrite Himage; discriminate | left; auto].
    + repeat split; [exact Hpost | rewrite Himage; exact Hfull |].
      right. split; [exact Hflag|].
      exists comment, parsed. repeat split; try assumption.
      eapply subseq_In; eassumption.
Qed.

Lemma parsed_entries_have_urls_witness :
  exists out,
    _parseComments py_re_search sample_votes sample_comments = Returns out /\
    Forall (fun pc => postUrl pc <> "" /\ imageUrl pc <> "") out.
Proof.
  destruct (parsed_entries_have_urls py_re_search sample_votes sample_comments)
    as [Hreturns Hurls].
  destruct (Hreturns py_patterns_compile) as [out Hout].
  exists out. split; [exact Hout|].
  eapply Forall_impl; [|exact (Hurls out Hout)].
  cbv beta. intros pc [Hpost [Himage _]]. split; assumption.
Defined.

(** C4.  A comment whose author is not on the blocklist, from which a post URL
    and an empty image link are extracted, and whose post's votes mention
    lmac, is in the output as the entry with the fallback image URL and the
    default-image flag set. *)
Theorem empty_image_gets_fallback (re_search : search_fn)
    (votes_of : string -> result string) (comments : list Comment.t)
    (comment : Comment.t) (parsed : parsedBody) (votes : string)
    (out : list parsedComment) :
  In comment comments ->
  in_blacklist (Comment.author comment) = false ->
  _parseCommentBody re_search comment = Returns parsed ->
  body_postUrl parsed <> "" ->
  body_imageUrl parsed = "" ->
  votes_of (hivePermlink_of (body_postUrl parsed)) = Returns votes ->
  PyStr.contains "lmac" votes = true ->
  _parseComments re_search votes_of comments = Returns out ->
  let pc := {| postUrl := canonical_postUrl (body_postUrl parsed);
               imageUrl := DEFAULT_IMAGE_URL;
               author := Comment.author comment;
               isDefaultImage := true |} in
  parse_one re_search votes_of comment = Returns (Some pc) /\ In pc out.
Proof.
  intros Hin Hblack Hbody Hpost Himage Hvotes Hlmac Hout pc.
  assert (Hone : parse_one re_search votes_of comment = Returns (Some pc)).
  { rewrite (parseOne_passes _ _ _ _ _ Hblack Hbody Hpost Hvotes Hlmac).
    rewrite Himage. reflexivity. }
  split; [exact Hone|].
  destruct (parseLoop_keeps _ _ _ _ _ Hout) as [_ Hkeeps].
  exact (Hkeeps comment pc Hin Hone).
Qed.

Lemma empty_image_gets_fallback_witness :
  exists pc out,
    _parseComments py_re_search sample_votes sample_comments = Returns out /\
    In pc out /\ author pc = "erin" /\
    imageUrl pc = DEFAULT_IMAGE_URL /\ isDefaultImage pc = true.
Proof.
  pose (comment := Comment.mk "erin" "Entry https://ecency.com/hive-174695/@erin/collage").
  pose (parsed := mkBody "https://ecency.com/hive-174695/@erin/collage" "" "erin").
  destruct (parseComments_returns py_re_search sample_votes py_patterns_compile
              sample_comments) as [out Hout].
  assert (Hin : In comment sample_comments) by (right; right; right; left; reflexivity).
  assert (Hblack : in_blacklist (Comment.author comment) = false)
    by (vm_compute; reflexivity).
  assert (Hbody : _parseCommentBody py_re_search comment = Returns parsed)
    by (vm_compute; reflexivity).
  assert (Hpost : body_postUrl parsed <> "") by discriminate.
  assert (Hvotes : sample_votes (hivePermlink_of (body_postUrl parsed)) =
                   Returns "[{'voter': 'lmac', 'percent': 10000}]")
    by (vm_compute; reflexivity).
  assert (Hlmac : PyStr.contains "lmac" "[{'voter': 'lmac', 'percent': 10000}]" = true)
    by (vm_compute; reflexivity).
  destruct (empty_image_gets_fallback py_re_search sample_votes sample_comments
              comment parsed _ out Hin Hblack Hbody Hpost eq_refl Hvotes Hlmac Hout)
    as [_ Hkept].
  eexists. exists out.
  split; [exact Hout|]. split; [exact Hkept|].
  repeat split.
Defined.

(** C5.  [_parseComments] returns whenever the two patterns compile, and no
    entry it returns, for any list of comments in any order, has an author
    of the blocklist. *)
Theorem blocklisted_authors_dropped (re_search : search_fn)
    (votes_of : string -> result string) (comments : list Comment.t) :
  (patterns_compile re_search ->
   exists out, _parseComments re_search votes_of comments = Returns out) /\
  (forall out,
      _parseComments re_search votes_of comments = Returns out ->
      Forall (fun pc => ~ In (author pc) AUTHOR_BLACKLIST) out).
Proof.
  split.
  - intros Hcompile. apply parseComments_returns, Hcompile.
  - intros out Hout.
    destruct (parseLoop_subseq _ _ _ _ _ Hout) as [sources [kept [-> [_ Hall]]]].
    cbn [app]. eapply Forall2_Forall_r; [exact Hall|].
    intros comment pc _ Hone. cbv beta in Hone.
    destruct (parseOne_kept _ _ _ _ Hone) as [Hblack [Hauthor _]].
    rewrite Hauthor, <- in_blacklist_In, Hblack. discriminate.
Qed.

Lemma blocklisted_authors_dropped_witness :
  In "abdt" (map Comment.author sample_comments) /\
  exists out,
    _parseComments py_re_search sample_votes sample_comments = Returns out /\
    Forall (fun pc => ~ In (author pc) AUTHOR_BLACKLIST) out.
Proof.
  split; [now left|].
  destruct (blocklisted_authors_dropped py_re_search sample_votes sample_comments)
    as [Hreturns Hdropped].
  destruct (Hreturns py_patterns_compile) as [out Hout].
  exists out. split; [exact Hout | exact (Hdropped out Hout)].
Defined.

(** C6.  [_parseComments] returns whenever the two patterns compile, and what
    it returns is, entry by entry and in the same order, what a subsequence
    of the comments becomes. *)
Theorem output_is_subsequence (re_search : search_fn)
    (votes_of : string -> result string) (comments : list Comment.t) :
  (patterns_compile re_search ->
   exists out, _parseComments re_search votes_of comments = Returns out) /\
  (forall out,
      _parseComments re_search votes_of comments = Returns out ->
      exists sources,
        subseq sources comments /\
        Forall2 (fun comment pc =>
                   parse_one re_search votes_of comment = Returns (Some pc) /\
                   author pc = Comment.author comment)
                sources out).
Proof.
  split.
  - intros Hcompile. apply parseComments_returns, Hcompile.
  - intros out Hout.
    destruct (parseLoop_subseq _ _ _ _ _ Hout) as [sources [kept [-> [Hsub Hall]]]].
    exists sources. split; [exact Hsub|]. cbn [app].
    eapply Forall2_impl; [|exact Hall].
    intros comment pc Hone. split; [exact Hone|].
    apply (parseOne_kept _ _ _ _ Hone).
Qed.

Lemma output_is_subsequence_witness :
  exists out sources,
    _parseComments py_re_search sample_votes sample_comments = Returns out /\
    subseq sources sample_comments /\
    map Comment.author sources = map author out.
Proof.
  destruct (output_is_subsequence py_re_search sample_votes sample_comments)
    as [Hreturns Hsub].
  destruct (Hreturns py_patterns_compile) as [out Hout].
  destruct (Hsub out Hout) as [sources [Hsources Hall]].
  exists out, sources. split; [exact Hout|]. split; [exact Hsources|].
  clear - Hall. induction Hall as [|comment pc sources out [_ Hauthor] _ IH].
  - reflexivity.
  - cbn [map]. rewrite Hauthor, IH. reflexivity.
Defined.

(** C7 (as amended).  For every text and every pattern on which [re.search]
    does not raise, [_findByRegex] returns a string: the empty string when
    nothing matches, when the match has no group 1 and when group 1 took no
    part in the match, and the text of group 1 otherwise. *)
Theorem findByRegex_total_on_compiled_pattern (re_search : search_fn)
    (text regex : string) :
  (exists found, re_search regex text [MULTILINE] = Returns found) ->
  exists s,
    _findByRegex re_search text regex = Returns s /\
    (re_search regex text [MULTILINE] = Returns None -> s = "") /\
    (forall m, re_search regex text [MULTILINE] = Returns (Some m) ->
               group m 1 = Raises IndexError \/ group m 1 = Returns None -> s = "") /\
    (forall m g, re_search regex text [MULTILINE] = Returns (Some m) ->
                 group m 1 = Returns (Some g) -> s = g).
Proof.
  intros [found Hfound]. rewrite findByRegex_cases, Hfound.
  destruct found as [m|].
  - destruct (group m 1) as [[g|]|e] eqn:Hgroup; eexists; (split; [reflexivity|]);
      repeat split; try discriminate; intros m'; intros;
      try match goal with
          | H : Returns (Some _) = Returns (Some _) |- _ => injection H as <-
          end;
      try match goal with
          | H : _ \/ _ |- _ => destruct H
          end;
      congruence.
  - exists "". repeat split; intros; congruence.
Qed.

Lemma findByRegex_total_on_compiled_pattern_witness :
  exists s,
    _findByRegex py_re_search "see https://hive.blog/@bob/entry now" REGEX_POST_URL
    = Returns s /\ s = "https://hive.blog/@bob/entry".
Proof.
  destruct (findByRegex_total_on_compiled_pattern py_re_search
              "see https://hive.blog/@bob/entry now" REGEX_POST_URL
              (proj1 (py_patterns_compile _)))
    as [s [Hs [_ [_ Hgroup]]]].
  exists s. split; [exact Hs|].
  apply (Hgroup (mkMatch [Some "https://hive.blog/@bob/entry";
                          Some "https://hive.blog/@bob/entry"]));
    vm_compute; reflexivity.
Defined.

(** C7 as stated fails on a pattern that does not compile: the unclosed
    parenthesis makes [re.search] raise, and [_findByRegex] with it. *)
Lemma findByRegex_raises_on_malformed_pattern :
  Re.parse "(" = inl Re.Malformed /\
  _findByRegex py_re_search "abc" "(" = Raises ReError.
Proof. split; reflexivity. Qed.

(** ** Rendering and saving *)

(** C8.  Both renderers return [False] whenever the body template or the
    per-entry template is not a file on disk. *)
Theorem renderers_fail_without_template
    (py_format : string -> list (string * string) -> result string)
    (fs : disk) (parsedComments : list parsedComment) :
  (fs "template_md_body.tpl" = None \/ fs "template_md_image.tpl" = None ->
   _createMarkdownFromParsedComments py_format fs parsedComments = Returns PyFalse) /\
  (fs "template_html_body.tpl" = None \/ fs "template_html_image.tpl" = None ->
   _createHtmlMarkupFromParsedComments fs parsedComments = PyFalse).
Proof.
  unfold _createMarkdownFromParsedComments, _createHtmlMarkupFromParsedComments,
    _loadTemplateFile.
  split; intros [Hmissing|Hmissing]; rewrite Hmissing; cbn [PyStr.truthy_opt negb orb];
    try reflexivity; rewrite orb_true_r; reflexivity.
Qed.

Lemma renderers_fail_without_template_witness :
  _createMarkdownFromParsedComments sample_format no_templates [] = Returns PyFalse /\
  _createHtmlMarkupFromParsedComments no_templates [] = PyFalse.
Proof.
  destruct (renderers_fail_without_template sample_format no_templates [])
    as [Hmd Hhtml].
  split; [apply Hmd | apply Hhtml]; left; reflexivity.
Defined.

(** C10.  Both renderers also return [False] when a template file exists and
    is empty, so that [False] does not tell that a file is missing. *)
Theorem renderers_fail_on_empty_template
    (py_format : string -> list (string * string) -> result string)
    (fs : disk) (parsedComments : list parsedComment) :
  (fs "template_md_body.tpl" = Some "" \/ fs "template_md_image.tpl" = Some "" ->
   _createMarkdownFromParsedComments py_format fs parsedComments = Returns PyFalse) /\
  (fs "template_html_body.tpl" = Some "" \/ fs "template_html_image.tpl" = Some "" ->
   _createHtmlMarkupFromParsedComments fs parsedComments = PyFalse).
Proof.
  unfold _createMarkdownFromParsedComments, _createHtmlMarkupFromParsedComments,
    _loadTemplateFile.
  split; intros [Hempty|Hempty]; rewrite Hempty; cbn [PyStr.truthy_opt negb orb];
    try reflexivity; rewrite orb_true_r; reflexivity.
Qed.

Lemma renderers_fail_on_empty_template_witness :
  (empty_image_templates "template_md_body.tpl" <> None /\
   empty_image_templates "template_md_image.tpl" <> None /\
   _createMarkdownFromParsedComments sample_format empty_image_templates [] =
   Returns PyFalse) /\
  (empty_image_templates "template_html_body.tpl" <> None /\
   empty_image_templates "template_html_image.tpl" <> None /\
   _createHtmlMarkupFromParsedComments empty_image_templates [] = PyFalse).
Proof.
  destruct (renderers_fail_on_empty_template sample_format empty_image_templates [])
    as [Hmd Hhtml].
  split; (split; [discriminate|]); (split; [discriminate|]);
    [apply Hmd | apply Hhtml]; right; reflexivity.
Defined.

Lemma list_ascii_of_string_app (a b : string) :
  list_ascii_of_string (String.append a b) =
  list_ascii_of_string a ++ list_ascii_of_string b.
Proof.
  induction a as [|c a IH]; simpl; [reflexivity | now rewrite IH].
Qed.

Lemma append_assoc (a b c : string) :
  String.append (String.append a b) c = String.append a (String.append b c).
Proof.
  induction a as [|x a IH]; simpl; [reflexivity | now rewrite IH].
Qed.

(** C9.  Without a caller-supplied name the document is written under the
    time stamp followed by [-GeneratedImageSheet] and the extension: the name
    ends in [.html] in markup mode, and otherwise in [md] that no dot
    precedes. *)
Theorem generated_name_extension (fs : disk) (stamp markdown : string) :
  save_filename true None stamp = String.append stamp "-GeneratedImageSheet.html" /\
  save_filename false None stamp = String.append stamp "-GeneratedImageSheetmd" /\
  ends_with ".html" (save_filename true None stamp) = true /\
  ends_with "md" (save_filename false None stamp) = true /\
  ends_with ".md" (save_filename false None stamp) = false /\
  (forall saveAsHTMLFile,
      fst (_saveMarkdownToDisk fs stamp markdown saveAsHTMLFile None)
          (save_filename saveAsHTMLFile None stamp) = Some markdown).
Proof.
  assert (Hhtml : save_filename true None stamp =
                  String.append stamp "-GeneratedImageSheet.html").
  { unfold save_filename. now rewrite append_assoc. }
  assert (Hmd : save_filename false None stamp =
                String.append stamp "-GeneratedImageSheetmd").
  { unfold save_filename. now rewrite append_assoc. }
  split; [exact Hhtml|]. split; [exact Hmd|].
  unfold ends_with. rewrite Hhtml, Hmd, !list_ascii_of_string_app, !rev_app_distr.
  repeat split.
  intros saveAsHTMLFile. unfold _saveMarkdownToDisk, write_file. cbn [fst].
  now rewrite String.eqb_refl.
Qed.

(** ** Image download *)

Example str_of_int_samples :
  str_of_int 160 = "160" /\ str_of_int 0 = "0" /\ str_of_int (-5) = "-5".
Proof. repeat split. Qed.

Example thumbnail_url_sample :
  thumbnail_url 160 "https://x.org/a.png" =
  "https://images.hive.blog/160x0/https://x.org/a.png".
Proof. reflexivity. Qed.

Section DownloadFacts.

Variable requests_get : string -> result response.
Variable image_open : string -> result Image.
Variable thumbnailWidth : Z.

Lemma download_one_some (pc : parsedComment) (withImage : parsedCommentWithImage) :
  _downloadImageFromParsedComment requests_get image_open pc thumbnailWidth
  = Returns (Some withImage) ->
  entry withImage = pc /\
  exists r,
    requests_get (thumbnail_url thumbnailWidth (imageUrl pc)) = Returns r /\
    status_code r = 200 /\
    image_open (content r) = Returns (imageObject withImage).
Proof.
  unfold _downloadImageFromParsedComment.
  destruct (requests_get _) as [r|e]; cbn [bind]; [|discriminate].
  destruct (Z.eqb_spec (status_code r) 200) as [Hok|Hko]; [|discriminate].
  destruct (image_open (content r)) as [im|e] eqn:Him; cbn [bind]; [|discriminate].
  intros [= <-]. cbn [entry imageObject]. split; [reflexivity|].
  exists r. repeat split; assumption.
Qed.

Lemma download_loop_kept (l : list parsedComment) :
  forall out unprocessed out' unprocessed',
    download_loop requests_get image_open l thumbnailWidth out unprocessed
    = Returns (out', unprocessed') ->
    exists kept,
      out' = out ++ kept /\
      subseq (map entry kept) l /\
      Forall (loaded requests_get image_open thumbnailWidth) kept /\
      Z.of_nat (length kept) + (unprocessed' - unprocessed)
      + Z.of_nat (length (filter isDefaultImage l)) = Z.of_nat (length l).
Proof.
  induction l as [|pc l IH]; intros out n out' n'; cbn [download_loop].
  - intros [= <- <-]. exists []. rewrite app_nil_r.
    repeat split; [constructor | constructor | simpl; lia].
  - unfold IGNORE_DEFAULT_IMAGES_IN_POSTER. cbn [andb filter].
    destruct (isDefaultImage pc) eqn:Hdefault.
    + intros Hloop. destruct (IH _ _ _ _ Hloop) as [kept [Hout [Hsub [Hall Hcount]]]].
      exists kept. repeat split; try assumption; [constructor; exact Hsub|].
      cbn [length]. lia.
    + destruct (_downloadImageFromParsedComment requests_get image_open pc thumbnailWidth)
        as [[withImage|]|e] eqn:Hone; cbn [bind]; [| |discriminate]; intros Hloop;
        destruct (IH _ _ _ _ Hloop) as [kept [Hout [Hsub [Hall Hcount]]]].
      * destruct (download_one_some _ _ Hone) as [Hentry Hr].
        exists (withImage :: kept). rewrite Hout, <- app_assoc.
        repeat split.
        -- cbn [map]. rewrite Hentry. apply subseq_keep. exact Hsub.
        -- constructor; [|exact Hall]. split; [rewrite Hentry; exact Hdefault|].
           rewrite Hentry. exact Hr.
        -- cbn [length]. lia.
      * exists kept. repeat split; try assumption; [constructor; exact Hsub|].
        cbn [length]. lia.
Qed.

End DownloadFacts.

(** X1.  What [_downloadImagesFromParsedComments] returns are, in their
    order, entries of its input that do not use the default image, each with
    the image that the answer 200 to its rendition decoded to; the entries
    returned, those counted as not loadable and those on the default image
    add up to the input. *)
Theorem download_keeps_loaded_entries
    (requests_get : string -> result response) (image_open : string -> result Image)
    (parsedComments : list parsedComment) (thumbnailWidth : Z)
    (out : list parsedCommentWithImage) (unprocessed : Z) :
  _downloadImagesFromParsedComments requests_get image_open parsedComments thumbnailWidth
  = Returns (out, unprocessed) ->
  subseq (map entry out) parsedComments /\
  Forall (loaded requests_get image_open thumbnailWidth) out /\
  Z.of_nat (length out) + unprocessed
  + Z.of_nat (length (filter isDefaultImage parsedComments))
  = Z.of_nat (length parsedComments).
Proof.
  intros Hrun.
  destruct (download_loop_kept _ _ _ _ _ _ _ _ Hrun) as [kept [-> [Hsub [Hall Hcount]]]].
  cbn [app]. repeat split; try assumption. lia.
Qed.

Lemma download_keeps_loaded_entries_witness :
  subseq (map entry [ mkWithImage (mkParsed "https://peakd.com/@a/one" "https://x.org/a.png" "a" false)
                                  (mkImage (160, 90));
                      mkWithImage (mkParsed "https://peakd.com/@b/four" "https://x.org/b.jpg" "b" false)
                                  (mkImage (160, 120)) ])
         sample_parsed /\
  2 + 1 + Z.of_nat (length (filter isDefaultImage sample_parsed))
  = Z.of_nat (length sample_parsed).
Proof.
  destruct (download_keeps_loaded_entries sample_get sample_open sample_parsed 160
              [ mkWithImage (mkParsed "https://peakd.com/@a/one" "https://x.org/a.png" "a" false)
                            (mkImage (160, 90));
                mkWithImage (mkParsed "https://peakd.com/@b/four" "https://x.org/b.jpg" "b" false)
                            (mkImage (160, 120)) ]
              1 ltac:(vm_compute; reflexivity))
    as [Hsub [_ Hcount]].
  split; [exact Hsub | exact Hcount].
Defined.


(** X2.  Entries on the default image are skipped before anything is
    requested: a list of such entries gives the empty list and the count 0
    whatever the network does. *)
Theorem download_never_requests_default_image
    (requests_get : string -> result response) (image_open : string -> result Image)
    (parsedComments : list parsedComment) (thumbnailWidth : Z) :
  Forall (fun pc => isDefaultImage pc = true) parsedComments ->
  _downloadImagesFromParsedComments requests_get image_open parsedComments thumbnailWidth
  = Returns ([], 0).
Proof.
  unfold _downloadImagesFromParsedComments.
  generalize (@nil parsedCommentWithImage) 0. intros out n Hall. revert out n.
  induction Hall as [|pc rest Hpc _ IH]; intros out n; cbn [download_loop];
    [reflexivity|].
  unfold IGNORE_DEFAULT_IMAGES_IN_POSTER. rewrite Hpc. cbn [andb]. apply IH.
Qed.

Lemma download_never_requests_default_image_witness :
  _downloadImagesFromParsedComments (fun _ => Raises RemoteError) (fun _ => Raises RemoteError)
    [mkParsed "https://peakd.com/@e/two" DEFAULT_IMAGE_URL "e" true] 160
  = Returns ([], 0).
Proof.
  apply download_never_requests_default_image.
  constructor; [reflexivity | constructor].
Defined.

(** ** The renderers *)

Lemma append_empty_r (s : string) : String.append s "" = s.
Proof. induction s as [|c s IH]; simpl; [reflexivity | now rewrite IH]. Qed.

Lemma truthy_opt_false (template : option string) :
  PyStr.truthy_opt template = false <-> unusable template.
Proof.
  unfold unusable. destruct template as [t|]; cbn [PyStr.truthy_opt].
  - unfold PyStr.truthy. rewrite negb_false_iff, String.eqb_eq.
    split; [intros ->; now right | intros [H|H]; [discriminate | now injection H]].
  - split; [now left | reflexivity].
Qed.

Lemma truthy_opt_some (t : string) : t <> "" -> PyStr.truthy_opt (Some t) = true.
Proof. intros H. cbn. now apply truthy_nonempty. Qed.

Lemma html_step_rendered (imageTemplate images : string) (pc : parsedComment) :
  html_step imageTemplate images pc =
  if html_rendered pc then String.append images (html_snippet imageTemplate pc)
  else images.
Proof.
  unfold html_step, html_rendered, html_snippet.
  destruct (negb (PyStr.truthy (imageUrl pc)) && negb (PyStr.truthy (postUrl pc)));
    reflexivity.
Qed.

(** The markup loop: the blocks of the entries it does not skip, in order. *)
Lemma html_fold (imageTemplate : string) (l : list parsedComment) :
  forall images,
    fold_left (html_step imageTemplate) l images =
    String.append images
      (concat_str (map (html_snippet imageTemplate) (filter html_rendered l))).
Proof.
  induction l as [|pc l IH]; intros images; cbn [fold_left filter].
  - cbn. now rewrite append_empty_r.
  - rewrite IH, html_step_rendered.
    destruct (html_rendered pc); [|reflexivity].
    cbn [map concat_str fold_right]. now rewrite append_assoc.
Qed.

(** X3.  The markup renderer returns [False] exactly when the body template
    or the per-entry template is missing or empty. *)
Theorem html_renderer_fails_only_on_templates (fs : disk)
    (parsedComments : list parsedComment) :
  _createHtmlMarkupFromParsedComments fs parsedComments = PyFalse <->
  unusable (fs "template_html_body.tpl") \/ unusable (fs "template_html_image.tpl").
Proof.
  unfold _createHtmlMarkupFromParsedComments, _loadTemplateFile.
  rewrite <- !truthy_opt_false.
  replace (match fs "template_html_body.tpl" with
           | Some content => Some content | None => None end)
    with (fs "template_html_body.tpl") by (destruct (fs _); reflexivity).
  replace (match fs "template_html_image.tpl" with
           | Some content => Some content | None => None end)
    with (fs "template_html_image.tpl") by (destruct (fs _); reflexivity).
  destruct (PyStr.truthy_opt (fs "template_html_body.tpl"));
    destruct (PyStr.truthy_opt (fs "template_html_image.tpl")); cbn [negb orb];
    split; intros H; try reflexivity; try discriminate; auto.
  destruct H; discriminate.
Qed.

Lemma html_renderer_fails_only_on_templates_witness :
  _createHtmlMarkupFromParsedComments sample_templates sample_parsed <> PyFalse.
Proof.
  intros Hfalse.
  apply (html_renderer_fails_only_on_templates sample_templates sample_parsed) in Hfalse.
  destruct Hfalse as [[H|H]|[H|H]]; discriminate.
Defined.

Lemma html_renderer_document_aux (fs : disk) (bodyTemplate imageTemplate : string)
    (parsedComments : list parsedComment) :
  fs "template_html_body.tpl" = Some bodyTemplate -> bodyTemplate <> "" ->
  fs "template_html_image.tpl" = Some imageTemplate -> imageTemplate <> "" ->
  _createHtmlMarkupFromParsedComments fs parsedComments =
  Doc (PyStr.replace bodyTemplate "{images}"
         (concat_str (map (html_snippet imageTemplate)
                          (filter html_rendered parsedComments)))).
Proof.
  intros Hbody Hb Himage Hi.
  unfold _createHtmlMarkupFromParsedComments, _loadTemplateFile.
  rewrite Hbody, Himage, !truthy_opt_some by assumption.
  cbn [negb orb template_text]. now rewrite html_fold.
Qed.

(** X4.  With both templates present and not empty, the markup is the body
    template with [{images}] replaced by the per-entry blocks, in the order of
    the entries, of every entry that has an image URL or a post URL; an
    entry with neither adds nothing, and no entry gives the body with an empty
    replacement. *)
Theorem html_renderer_document (fs : disk) (bodyTemplate imageTemplate : string)
    (parsedComments : list parsedComment) :
  fs "template_html_body.tpl" = Some bodyTemplate -> bodyTemplate <> "" ->
  fs "template_html_image.tpl" = Some imageTemplate -> imageTemplate <> "" ->
  _createHtmlMarkupFromParsedComments fs parsedComments =
  Doc (PyStr.replace bodyTemplate "{images}"
         (concat_str (map (html_snippet imageTemplate)
                          (filter html_rendered parsedComments)))).
Proof.
  intros Hbody Hb Himage Hi.
  unfold _createHtmlMarkupFromParsedComments, _loadTemplateFile.
  rewrite Hbody, Himage, !truthy_opt_some by assumption.
  cbn [negb orb template_text]. now rewrite html_fold.
Qed.

Lemma html_renderer_document_witness :
  _createHtmlMarkupFromParsedComments sample_templates
    [ mkParsed "https://peakd.com/@a/one" "https://x.org/a.png" "a" false;
      mkParsed "" "" "nobody" false ]
  = Doc "<div><a href='https://peakd.com/@a/one'><img src='https://x.org/a.png'>a</a></div>".
Proof.
  rewrite (html_renderer_document sample_templates "<div>{images}</div>"
             "<a href='{postUrl}'><img src='{imageUrl}'>{author}</a>");
    (reflexivity || discriminate).
Defined.

(** X5.  No entry that [_parseComments] returns is skipped by the markup
    renderer: its document holds the block of every one of them. *)
Theorem parsed_entries_all_rendered (re_search : search_fn)
    (votes_of : string -> result string) (comments : list Comment.t)
    (out : list parsedComment) (fs : disk) (bodyTemplate imageTemplate : string) :
  _parseComments re_search votes_of comments = Returns out ->
  fs "template_html_body.tpl" = Some bodyTemplate -> bodyTemplate <> "" ->
  fs "template_html_image.tpl" = Some imageTemplate -> imageTemplate <> "" ->
  _createHtmlMarkupFromParsedComments fs out =
  Doc (PyStr.replace bodyTemplate "{images}"
         (concat_str (map (html_snippet imageTemplate) out))).
Proof.
  intros Hout Hbody Hb Himage Hi.
  rewrite (html_renderer_document_aux fs bodyTemplate imageTemplate) by assumption.
  destruct (parseLoop_subseq _ _ _ _ _ Hout) as [sources [kept [-> [_ Hall]]]].
  cbn [app].
  assert (Hkeep : Forall (fun pc => html_rendered pc = true) kept).
  { eapply Forall2_Forall_r; [exact Hall|].
    intros comment pc _ Hone. cbv beta in Hone.
    destruct (parseOne_kept _ _ _ _ Hone) as [_ [_ [Hpost _]]].
    unfold html_rendered. apply truthy_nonempty in Hpost. rewrite Hpost.
    cbn [negb]. now rewrite andb_false_r. }
  replace (filter html_rendered kept) with kept; [reflexivity|].
  clear - Hkeep. induction Hkeep as [|pc l Hpc _ IH]; [reflexivity|].
  cbn [filter]. rewrite Hpc. now f_equal.
Qed.

Lemma parsed_entries_all_rendered_witness :
  exists out,
    _parseComments py_re_search sample_votes sample_comments = Returns out /\
    _createHtmlMarkupFromParsedComments sample_templates out =
    Doc (PyStr.replace "<div>{images}</div>" "{images}"
           (concat_str
              (map (html_snippet "<a href='{postUrl}'><img src='{imageUrl}'>{author}</a>")
                   out))).
Proof.
  destruct (parseComments_returns py_re_search sample_votes py_patterns_compile
              sample_comments) as [out Hout].
  exists out. split; [exact Hout|].
  apply (parsed_entries_all_rendered py_re_search sample_votes sample_comments out
           sample_templates); (exact Hout || reflexivity || discriminate).
Defined.

Section MarkdownFacts.

Variable py_format : string -> list (string * string) -> result string.

Lemma md_images_formatted (imageTemplate : string) (block : parsedComment -> string)
    (l : list parsedComment) :
  Forall (fun pc => py_format imageTemplate (md_fields pc) = Returns (block pc)) l ->
  forall images,
    md_images py_format imageTemplate l images =
    Returns (String.append images (concat_str (map block l))).
Proof.
  induction 1 as [|pc l Hpc _ IH]; intros images; cbn [md_images].
  - cbn. now rewrite append_empty_r.
  - fold (md_fields pc). rewrite Hpc. cbn [bind]. rewrite IH.
    cbn [map concat_str fold_right]. now rewrite append_assoc.
Qed.

End MarkdownFacts.

(** X6.  The markdown renderer returns [False] exactly when the body template
    or the per-entry template is missing or empty; with both usable it
    returns a document or raises what [format] raised. *)
Theorem md_renderer_fails_only_on_templates
    (py_format : string -> list (string * string) -> result string)
    (fs : disk) (parsedComments : list parsedComment) :
  _createMarkdownFromParsedComments py_format fs parsedComments = Returns PyFalse <->
  unusable (fs "template_md_body.tpl") \/ unusable (fs "template_md_image.tpl").
Proof.
  unfold _createMarkdownFromParsedComments, _loadTemplateFile.
  rewrite <- !truthy_opt_false.
  replace (match fs "template_md_body.tpl" with
           | Some content => Some content | None => None end)
    with (fs "template_md_body.tpl") by (destruct (fs _); reflexivity).
  replace (match fs "template_md_image.tpl" with
           | Some content => Some content | None => None end)
    with (fs "template_md_image.tpl") by (destruct (fs _); reflexivity).
  destruct (PyStr.truthy_opt (fs "template_md_body.tpl"));
    destruct (PyStr.truthy_opt (fs "template_md_image.tpl")); cbn [negb orb];
    split; intros H; try reflexivity; auto.
  - destruct (md_images _ _ _ _) as [images|e]; cbn [bind] in H; [|discriminate].
    destruct (py_format _ _); discriminate.
  - destruct H; discriminate.
Qed.

Lemma md_renderer_fails_only_on_templates_witness :
  _createMarkdownFromParsedComments sample_format sample_templates sample_parsed
  <> Returns PyFalse.
Proof.
  intros Hfalse.
  apply (md_renderer_fails_only_on_templates sample_format sample_templates sample_parsed)
    in Hfalse.
  destruct Hfalse as [[H|H]|[H|H]]; discriminate.
Defined.

(** X7.  With both templates usable and a [format] that returns on the
    per-entry template for every entry and on the body template for their
    concatenation, the markdown is that last result: every entry is formatted
    once, in order, and the blocks are joined without a separator. *)
Theorem md_renderer_document
    (py_format : string -> list (string * string) -> result string)
    (fs : disk) (bodyTemplate imageTemplate : string)
    (block : parsedComment -> string) (text : string)
    (parsedComments : list parsedComment) :
  fs "template_md_body.tpl" = Some bodyTemplate -> bodyTemplate <> "" ->
  fs "template_md_image.tpl" = Some imageTemplate -> imageTemplate <> "" ->
  Forall (fun pc => py_format imageTemplate (md_fields pc) = Returns (block pc))
         parsedComments ->
  py_format bodyTemplate [("images", concat_str (map block parsedComments))]
  = Returns text ->
  _createMarkdownFromParsedComments py_format fs parsedComments = Returns (Doc text).
Proof.
  intros Hbody Hb Himage Hi Hblocks Htext.
  unfold _createMarkdownFromParsedComments, _loadTemplateFile.
  rewrite Hbody, Himage, !truthy_opt_some by assumption.
  cbn [negb orb template_text].
  rewrite (md_images_formatted py_format imageTemplate block _ Hblocks).
  cbn [bind String.append]. now rewrite Htext.
Qed.

Lemma md_renderer_document_witness :
  _createMarkdownFromParsedComments sample_format sample_templates
    [ mkParsed "https://peakd.com/@a/one" "https://x.org/a.png" "a" false ]
  = Returns (Doc "# Entries [![a](https://x.org/a.png)](https://peakd.com/@a/one) ").
Proof.
  apply (md_renderer_document sample_format sample_templates "# Entries {images}"
           "[![{author}]({imageUrl})]({postUrl}) "
           (fun pc => String.append "[!["
                        (String.append (author pc)
                           (String.append "]("
                              (String.append (imageUrl pc)
                                 (String.append ")]("
                                    (String.append (postUrl pc) ") "))))))).
  - reflexivity.
  - discriminate.
  - reflexivity.
  - discriminate.
  - repeat constructor.
  - reflexivity.
Defined.

(** ** Saving *)



(** ** More on the parse and filter stage *)

Section ParseComposition.

Variable re_search : search_fn.
Variable votes_of : string -> result string.

Lemma parse_loop_app (l1 l2 : list Comment.t) :
  forall acc,
    parse_loop re_search votes_of (l1 ++ l2) acc =
    bind (parse_loop re_search votes_of l1 acc) (parse_loop re_search votes_of l2).
Proof.
  induction l1 as [|c l1 IH]; intros acc; cbn [app parse_loop]; [reflexivity|].
  destruct (parse_one re_search votes_of c) as [kept|e]; cbn [bind]; [apply IH | reflexivity].
Qed.

Lemma parse_loop_from (l : list Comment.t) :
  forall acc,
    parse_loop re_search votes_of l acc =
    bind (parse_loop re_search votes_of l []) (fun out => Returns (acc ++ out)).
Proof.
  induction l as [|c l IH]; intros acc; cbn [parse_loop].
  - cbn. now rewrite app_nil_r.
  - destruct (parse_one re_search votes_of c) as [[pc|]|e]; cbn [bind];
      [ | apply IH | reflexivity ].
    rewrite (IH (acc ++ [pc])), (IH ([] ++ [pc])).
    destruct (parse_loop re_search votes_of l []) as [out|e]; cbn [bind app];
      [now rewrite <- app_assoc | reflexivity].
Qed.

(** A comment that one of the checks rejects. *)
Lemma parse_one_rejected (comment : Comment.t) :
  in_blacklist (Comment.author comment) = true \/
  (exists parsed,
      _parseCommentBody re_search comment = Returns parsed /\
      (body_postUrl parsed = "" \/
       (exists e, votes_of (hivePermlink_of (body_postUrl parsed)) = Raises e) \/
       (exists votes, votes_of (hivePermlink_of (body_postUrl parsed)) = Returns votes /\
                      PyStr.contains "lmac" votes = false))) ->
  parse_one re_search votes_of comment = Returns None.
Proof.
  unfold parse_one. intros [Hblack | [parsed [Hbody Hwhy]]].
  - now rewrite Hblack.
  - destruct (in_blacklist (Comment.author comment)); [reflexivity|].
    rewrite Hbody. cbn [bind].
    destruct (PyStr.truthy (body_postUrl parsed)) eqn:Hpost; cbn [negb]; [|reflexivity].
    fold (canonical_postUrl (body_postUrl parsed)).
    fold (hivePermlink_of (body_postUrl parsed)).
    destruct Hwhy as [Hempty | [[e He] | [votes [Hv Hlmac]]]].
    + rewrite Hempty in Hpost. discriminate.
    + now rewrite He.
    + now rewrite Hv, Hlmac.
Qed.

End ParseComposition.

(** X9.  Parsing a list of comments is parsing its two parts one after the
    other: the entries of the first part followed by those of the second,
    and the exception of the first comment that raises. *)
Theorem parse_comments_app (re_search : search_fn) (votes_of : string -> result string)
    (l1 l2 : list Comment.t) :
  _parseComments re_search votes_of (l1 ++ l2) =
  bind (_parseComments re_search votes_of l1)
       (fun out1 =>
          bind (_parseComments re_search votes_of l2)
               (fun out2 => Returns (out1 ++ out2))).
Proof.
  unfold _parseComments. rewrite parse_loop_app.
  destruct (parse_loop re_search votes_of l1 []) as [out1|e]; cbn [bind]; [|reflexivity].
  apply parse_loop_from.
Qed.

(** X10.  A comment of a blocklisted author, whatever its body and whatever
    the search does, and a comment without a post link, whose votes cannot be
    looked up or do not mention lmac, is dropped and nothing else changes:
    the list with it gives what the list without it gives. *)
Theorem rejected_comment_changes_nothing (re_search : search_fn)
    (votes_of : string -> result string) (l1 l2 : list Comment.t)
    (comment : Comment.t) :
  in_blacklist (Comment.author comment) = true \/
  (exists parsed,
      _parseCommentBody re_search comment = Returns parsed /\
      (body_postUrl parsed = "" \/
       (exists e, votes_of (hivePermlink_of (body_postUrl parsed)) = Raises e) \/
       (exists votes, votes_of (hivePermlink_of (body_postUrl parsed)) = Returns votes /\
                      PyStr.contains "lmac" votes = false))) ->
  _parseComments re_search votes_of (l1 ++ comment :: l2) =
  _parseComments re_search votes_of (l1 ++ l2).
Proof.
  intros Hwhy. apply parse_one_rejected in Hwhy.
  unfold _parseComments. rewrite !parse_loop_app.
  destruct (parse_loop re_search votes_of l1 []) as [out1|e]; cbn [bind parse_loop];
    [|reflexivity].
  now rewrite Hwhy.
Qed.

Lemma rejected_comment_changes_nothing_witness :
  _parseComments (fun _ _ _ => Raises ReError) sample_votes
    [Comment.mk "abdt" "https://peakd.com/hive-174695/@abdt/entry"]
  = Returns [].
Proof.
  apply (rejected_comment_changes_nothing (fun _ _ _ => Raises ReError) sample_votes
           [] [] (Comment.mk "abdt" "https://peakd.com/hive-174695/@abdt/entry")).
  left. reflexivity.
Defined.

(** ** More on pass 1 *)

Lemma pass1_loop_snoc (columns : Z) (l : list parsedCommentWithImage)
    (pc : parsedCommentWithImage) (st : Pass1.state) :
  Pass1.loop columns (l ++ [pc]) st = Pass1.step columns (Pass1.loop columns l st) pc.
Proof. unfold Pass1.loop. now rewrite fold_left_app. Qed.

(** With a [columns] of at most 1 every thumbnail closes a row: nothing is
    ever added to [height]. *)
Lemma pass1_loop_single_column (columns : Z) (l : list parsedCommentWithImage) :
  columns <= 1 ->
  forall st,
    Pass1.col st = 0 -> Pass1.largest st = 0 ->
    Pass1.height (Pass1.loop columns l st) = Pass1.height st /\
    Pass1.col (Pass1.loop columns l st) = 0 /\
    Pass1.largest (Pass1.loop columns l st) = 0.
Proof.
  intros Hcolumns. induction l as [|pc l IH]; intros st Hcol Hlargest.
  - repeat split; assumption.
  - cbn [Pass1.loop fold_left]. fold (Pass1.loop columns l (Pass1.step columns st pc)).
    assert (Hstep : Pass1.step columns st pc =
                    {| Pass1.height := Pass1.height st + Pass1.largest st;
                       Pass1.col := 0; Pass1.largest := 0;
                       Pass1.closed := Pass1.closed st ++ [Pass1.open st ++ [pc]];
                       Pass1.open := [] |}).
    { unfold Pass1.step. rewrite Z.geb_leb.
      destruct (Z.leb_spec columns (Pass1.col st + 1)); [reflexivity | lia]. }
    rewrite Hstep.
    match goal with
    | |- context [Pass1.loop columns l ?st'] =>
        destruct (IH st' eq_refl eq_refl) as [Hh [Hc Hl]]
    end.
    cbn [Pass1.height] in Hh. repeat split; try assumption. lia.
Qed.

(** X11.  With a [columns] of 1 or less the height of pass 1 is two margins,
    20, whatever the thumbnails are. *)
Theorem pass1_single_column_height (l : list parsedCommentWithImage) (columns : Z) :
  columns <= 1 ->
  _calculateImageHeightByParsedComments l columns = 2 * THUMBNAIL_MARGIN_IN_IMAGE.
Proof.
  intros Hcolumns. unfold _calculateImageHeightByParsedComments, Pass1.finish.
  destruct (pass1_loop_single_column columns l Hcolumns Pass1.init eq_refl eq_refl)
    as [Hh [Hc _]].
  rewrite Hh, Hc. reflexivity.
Qed.

Lemma pass1_single_column_height_witness :
  _calculateImageHeightByParsedComments spec_example 1 = 20.
Proof.
  exact (pass1_single_column_height spec_example 1 ltac:(discriminate)).
Defined.

(** The column counter of pass 1 is the number of thumbnails modulo
    [columns]. *)
Lemma pass1_col_mod (columns : Z) (l : list parsedCommentWithImage) :
  1 <= columns ->
  Pass1.col (Pass1.loop columns l Pass1.init) = Z.of_nat (length l) mod columns.
Proof.
  intros Hcolumns. induction l as [|pc l IH] using rev_ind.
  - cbn [Pass1.loop fold_left Pass1.init Pass1.col length Z.of_nat].
    now rewrite Zmod_0_l.
  - rewrite pass1_loop_snoc, length_app. cbn [length].
    replace (Z.of_nat (length l + 1)) with (Z.of_nat (length l) + 1) by lia.
    pose proof (Z.mod_pos_bound (Z.of_nat (length l)) columns ltac:(lia)) as Hbound.
    unfold Pass1.step. rewrite Z.geb_leb, IH.
    rewrite <- (Zplus_mod_idemp_l (Z.of_nat (length l))).
    destruct (Z.leb_spec columns (Z.of_nat (length l) mod columns + 1)) as [Hwrap|Hstay];
      cbn [Pass1.col].
    + replace (Z.of_nat (length l) mod columns + 1) with columns by lia.
      now rewrite Z_mod_same_full.
    + now rewrite (Z.mod_small (Z.of_nat (length l) mod columns + 1)) by lia.
Qed.

(** X12.  The thumbnail that closes a row is never measured by pass 1: when
    the number of thumbnails is a multiple of [columns], the height does not
    depend on the last thumbnail. *)
Theorem pass1_ignores_closing_thumbnail (l : list parsedCommentWithImage)
    (last1 last2 : parsedCommentWithImage) (columns : Z) :
  1 <= columns ->
  (Z.of_nat (length l) + 1) mod columns = 0 ->
  _calculateImageHeightByParsedComments (l ++ [last1]) columns =
  _calculateImageHeightByParsedComments (l ++ [last2]) columns.
Proof.
  intros Hcolumns Hfull.
  unfold _calculateImageHeightByParsedComments. rewrite !pass1_loop_snoc.
  pose proof (pass1_col_mod columns l Hcolumns) as Hcol.
  pose proof (Z.mod_pos_bound (Z.of_nat (length l)) columns ltac:(lia)) as Hbound.
  assert (Hwrap : columns <= Pass1.col (Pass1.loop columns l Pass1.init) + 1).
  { rewrite Hcol. destruct (Z.le_gt_cases columns (Z.of_nat (length l) mod columns + 1))
      as [H|H]; [exact H|].
    rewrite <- Zplus_mod_idemp_l in Hfull.
    rewrite (Z.mod_small (Z.of_nat (length l) mod columns + 1)) in Hfull by lia. lia. }
  unfold Pass1.step. rewrite Z.geb_leb.
  destruct (Z.leb_spec columns (Pass1.col (Pass1.loop columns l Pass1.init) + 1));
    [reflexivity | lia].
Qed.

Lemma pass1_ignores_closing_thumbnail_witness :
  _calculateImageHeightByParsedComments (map thumb [50; 40; 80] ++ [thumb 60]) 2 =
  _calculateImageHeightByParsedComments (map thumb [50; 40; 80] ++ [thumb 6000]) 2.
Proof.
  apply pass1_ignores_closing_thumbnail; [discriminate | reflexivity].
Defined.

(** ** The drawing of pass 2 *)

Lemma pass2_step_stay (st : Pass2.state) (pc : parsedCommentWithImage) :
  Pass2.col st + 1 < 20 ->
  Pass2.step st pc =
  {| Pass2.xy := (fst (Pass2.xy st) + THUMBNAIL_MARGIN_IN_IMAGE + img_width pc,
                  snd (Pass2.xy st));
     Pass2.col := Pass2.col st + 1;
     Pass2.largest := tallest_after [pc] (Pass2.largest st);
     Pass2.drawn := Pass2.drawn st ++ captioned pc (fst (Pass2.xy st)) (snd (Pass2.xy st));
     Pass2.closed := Pass2.closed st;
     Pass2.open := Pass2.open st ++ [pc] |}.
Proof.
  intros Hstay. unfold Pass2.step. destruct (Pass2.xy st) as [x y].
  rewrite Z.geb_leb. unfold MAX_THUMBNAILS_PER_ROW_IN_IMAGE.
  destruct (Z.leb_spec 20 (Pass2.col st + 1)); [lia | reflexivity].
Qed.

Lemma pass2_step_wrap (st : Pass2.state) (pc : parsedCommentWithImage) :
  20 <= Pass2.col st + 1 ->
  Pass2.step st pc =
  {| Pass2.xy := (THUMBNAIL_MARGIN_IN_IMAGE,
                  snd (Pass2.xy st) + THUMBNAIL_MARGIN_IN_IMAGE
                  + tallest_after [pc] (Pass2.largest st));
     Pass2.col := 0;
     Pass2.largest := 0;
     Pass2.drawn := Pass2.drawn st ++ captioned pc (fst (Pass2.xy st)) (snd (Pass2.xy st));
     Pass2.closed := Pass2.closed st ++ [Pass2.open st ++ [pc]];
     Pass2.open := [] |}.
Proof.
  intros Hwrap. unfold Pass2.step. destruct (Pass2.xy st) as [x y].
  rewrite Z.geb_leb. unfold MAX_THUMBNAILS_PER_ROW_IN_IMAGE.
  destruct (Z.leb_spec 20 (Pass2.col st + 1)); [reflexivity | lia].
Qed.

Lemma tallest_after_max (r : list parsedCommentWithImage) :
  forall largest0, 0 <= largest0 ->
    tallest_after r largest0 = Z.max largest0 (row_max r).
Proof.
  unfold tallest_after, row_max.
  induction r as [|pc r IH]; intros largest0 Hpos; cbn [fold_left map fold_right].
  - lia.
  - rewrite IH by (destruct (Z.ltb_spec largest0 (img_height pc)); lia).
    destruct (Z.ltb_spec largest0 (img_height pc)); lia.
Qed.

Lemma row_max_nonneg (r : list parsedCommentWithImage) : 0 <= row_max r.
Proof. unfold row_max. induction r; cbn [map fold_right]; lia. Qed.

Lemma draw_row_snoc (r : list parsedCommentWithImage) (pc : parsedCommentWithImage) (y : Z) :
  forall x, draw_row (r ++ [pc]) x y = draw_row r x y ++ captioned pc (x_after r x) y.
Proof.
  induction r as [|q r IH]; intros x; cbn [app draw_row].
  - now rewrite app_nil_r.
  - rewrite IH, <- app_assoc. reflexivity.
Qed.

(** Thumbnails that do not fill the row: the cursor moves right, nothing
    wraps. *)
Lemma pass2_within_row (r : list parsedCommentWithImage) :
  forall st,
    Pass2.col st + Z.of_nat (length r) < 20 ->
    Pass2.loop r st =
    {| Pass2.xy := (x_after r (fst (Pass2.xy st)), snd (Pass2.xy st));
       Pass2.col := Pass2.col st + Z.of_nat (length r);
       Pass2.largest := tallest_after r (Pass2.largest st);
       Pass2.drawn := Pass2.drawn st
                      ++ draw_row r (fst (Pass2.xy st)) (snd (Pass2.xy st));
       Pass2.closed := Pass2.closed st;
       Pass2.open := Pass2.open st ++ r |}.
Proof.
  induction r as [|pc r IH]; intros st Hlen.
  - destruct st as [[x y] c L d cl op]. cbn. rewrite Z.add_0_r, !app_nil_r. reflexivity.
  - cbn [Pass2.loop fold_left]. fold (Pass2.loop r (Pass2.step st pc)).
    cbn [length] in Hlen.
    rewrite pass2_step_stay by lia.
    rewrite IH by (cbn [Pass2.col]; lia).
    cbn [Pass2.xy Pass2.col Pass2.largest Pass2.drawn Pass2.closed Pass2.open fst snd].
    f_equal.
    + cbn [length]. lia.
    + rewrite <- app_assoc. reflexivity.
    + rewrite <- app_assoc. reflexivity.
Qed.

(** Twenty thumbnails from the start of a row: the row is closed and the
    cursor goes to the start of the next one. *)
Lemma pass2_full_row (r : list parsedCommentWithImage) (st : Pass2.state) :
  length r = 20%nat ->
  Pass2.col st = 0 -> Pass2.largest st = 0 ->
  Pass2.loop r st =
  {| Pass2.xy := (THUMBNAIL_MARGIN_IN_IMAGE,
                  snd (Pass2.xy st) + THUMBNAIL_MARGIN_IN_IMAGE + row_max r);
     Pass2.col := 0;
     Pass2.largest := 0;
     Pass2.drawn := Pass2.drawn st ++ draw_row r (fst (Pass2.xy st)) (snd (Pass2.xy st));
     Pass2.closed := Pass2.closed st ++ [Pass2.open st ++ r];
     Pass2.open := [] |}.
Proof.
  intros Hlen Hcol Hlargest.
  destruct (exists_last (l := r)) as [r' [pc ->]];
    [intros E; rewrite E in Hlen; discriminate|].
  rewrite length_app in Hlen. cbn [length] in Hlen.
  unfold Pass2.loop. rewrite fold_left_app. cbn [fold_left].
  fold (Pass2.loop r' st).
  rewrite pass2_within_row by lia.
  rewrite pass2_step_wrap by (cbn [Pass2.col]; lia).
  cbn [Pass2.xy Pass2.col Pass2.largest Pass2.drawn Pass2.closed Pass2.open fst snd].
  rewrite draw_row_snoc, Hlargest.
  assert (Hmax : tallest_after [pc] (tallest_after r' 0) = row_max (r' ++ [pc])).
  { pose proof (row_max_nonneg r') as Hpos.
    rewrite row_max_snoc, (tallest_after_max r' 0) by lia.
    rewrite tallest_after_max by lia.
    unfold row_max at 2. cbn [map fold_right]. lia. }
  rewrite Hmax, <- !app_assoc. reflexivity.
Qed.

(** The whole loop from the start of a row. *)
Lemma pass2_loop_draws (l : list parsedCommentWithImage) :
  forall st,
    Pass2.col st = 0 -> Pass2.largest st = 0 ->
    fst (Pass2.xy st) = THUMBNAIL_MARGIN_IN_IMAGE ->
    Pass2.drawn (Pass2.loop l st) =
    Pass2.drawn st ++ draw_rows (rows_of 20 l) (snd (Pass2.xy st)).
Proof.
  induction l as [ | l Hne Hlen | r l Hr IH ] using (rows_ind 20 ltac:(lia));
    intros st Hcol Hlargest Hx.
  - cbn. now rewrite app_nil_r.
  - rewrite pass2_within_row by lia. cbn [Pass2.drawn].
    rewrite rows_of_short by (try assumption; lia).
    cbn [draw_rows]. now rewrite app_nil_r, Hx.
  - unfold Pass2.loop. rewrite fold_left_app.
    fold (Pass2.loop r st). fold (Pass2.loop l (Pass2.loop r st)).
    rewrite (pass2_full_row r st Hr Hcol Hlargest).
    rewrite IH by reflexivity.
    cbn [Pass2.xy Pass2.drawn snd].
    rewrite rows_of_app_full by (lia || assumption).
    cbn [draw_rows]. now rewrite Hx, <- app_assoc.
Qed.

Lemma poster_drawn_in_rows_of_20_aux (l : list parsedCommentWithImage)
    (thumbnailWidth columns : Z) :
  poster_drawn (fst (_createThumbnailPoster l thumbnailWidth columns)) =
  draw_rows (rows_of 20 l) THUMBNAIL_MARGIN_IN_IMAGE /\
  snd (_createThumbnailPoster l thumbnailWidth columns) = true.
Proof.
  split; [|reflexivity].
  unfold _createThumbnailPoster. cbn [fst poster_drawn].
  now rewrite pass2_loop_draws.
Qed.



Lemma pastes_app (a b : list draw_op) : pastes (a ++ b) = pastes a ++ pastes b.
Proof. unfold pastes. apply flat_map_app. Qed.

Lemma pastes_draw_row_cons (pc : parsedCommentWithImage)
    (r : list parsedCommentWithImage) (x y : Z) :
  pastes (draw_row (pc :: r) x y) =
  (x, y) :: pastes (draw_row r (x + THUMBNAIL_MARGIN_IN_IMAGE + img_width pc) y).
Proof. cbn [draw_row]. rewrite pastes_app. reflexivity. Qed.

Lemma length_pastes_draw_row (r : list parsedCommentWithImage) (y : Z) :
  forall x, length (pastes (draw_row r x y)) = length r.
Proof.
  induction r as [|pc r IH]; intros x; [reflexivity|].
  rewrite pastes_draw_row_cons. cbn [length]. now rewrite IH.
Qed.

(** In a row of thumbnails of one width the lefts are equally spaced. *)
Lemma nth_pastes_draw_row (width : Z) (r : list parsedCommentWithImage) (y : Z) :
  Forall (fun pc => img_width pc = width) r ->
  forall x k,
    (k < length r)%nat ->
    nth k (pastes (draw_row r x y)) (0, 0) =
    (x + Z.of_nat k * (width + THUMBNAIL_MARGIN_IN_IMAGE), y).
Proof.
  induction 1 as [|pc r Hpc _ IH]; intros x k Hk; [cbn [length] in Hk; lia|].
  rewrite pastes_draw_row_cons.
  destruct k as [|k]; cbn [nth].
  - f_equal. lia.
  - rewrite IH by (cbn [length] in Hk; lia). f_equal. rewrite Hpc. lia.
Qed.

(** X14.  With a [columns] from 0 to 19 and thumbnails as wide as the
    [thumbnailWidth] the canvas is sized for, the thumbnail after the first
    [columns] ones is pasted in the first row with its left edge on the right
    border of the canvas: pass 2 does not wrap where the canvas ends. *)
Theorem thumbnail_beyond_narrow_canvas (l : list parsedCommentWithImage)
    (thumbnailWidth columns : Z) :
  0 <= thumbnailWidth ->
  0 <= columns < MAX_THUMBNAILS_PER_ROW_IN_IMAGE ->
  (Z.to_nat columns < length l)%nat ->
  Forall (fun pc => img_width pc = thumbnailWidth) l ->
  nth (Z.to_nat columns)
      (paste_positions (fst (_createThumbnailPoster l thumbnailWidth columns))) (0, 0)
  = (fst (poster_size (fst (_createThumbnailPoster l thumbnailWidth columns))),
     THUMBNAIL_MARGIN_IN_IMAGE).
Proof.
  unfold MAX_THUMBNAILS_PER_ROW_IN_IMAGE. intros _ Hcolumns Hlen Hwidth.
  unfold paste_positions.
  rewrite (proj1 (poster_drawn_in_rows_of_20_aux l thumbnailWidth columns)).
  destruct l as [|pc l]; [cbn [length] in Hlen; lia|].
  rewrite rows_of_cons by lia. cbn [draw_rows]. rewrite pastes_app.
  assert (Hrow : (Z.to_nat columns < length (firstn 20 (pc :: l)))%nat)
    by (rewrite length_firstn; lia).
  rewrite app_nth1 by (rewrite length_pastes_draw_row; exact Hrow).
  rewrite (nth_pastes_draw_row thumbnailWidth) by
    (try exact Hrow; rewrite <- (firstn_skipn 20 (pc :: l)) in Hwidth;
     apply Forall_app in Hwidth; tauto).
  unfold _createThumbnailPoster. cbn [fst poster_size].
  rewrite Z2Nat.id by lia. f_equal. ring.
Qed.

Lemma thumbnail_beyond_narrow_canvas_witness :
  nth 2 (paste_positions
           (fst (_createThumbnailPoster
                   (map (fun h => mkWithImage (mkParsed "p" "i" "a" false) (mkImage (160, h)))
                        [50; 40; 80])
                   160 2))) (0, 0)
  = (350, 10).
Proof.
  apply (thumbnail_beyond_narrow_canvas
           (map (fun h => mkWithImage (mkParsed "p" "i" "a" false) (mkImage (160, h)))
                [50; 40; 80]) 160 2).
  - discriminate.
  - split; [discriminate | reflexivity].
  - cbn. lia.
  - repeat constructor.
Defined.

(** A row drawn from [x]: every thumbnail right of [x], the last one ending
    no further than the widest row would, all at the height [y] and none
    taller than the row. *)
Lemma draw_row_bounds (width : Z) (r : list parsedCommentWithImage) (y : Z) :
  Forall (fun pc => 0 <= img_width pc <= width) r ->
  forall x,
    Forall2 (fun pc at_xy =>
               x <= fst at_xy /\
               fst at_xy + img_width pc + THUMBNAIL_MARGIN_IN_IMAGE
               <= x + Z.of_nat (length r) * (width + THUMBNAIL_MARGIN_IN_IMAGE) /\
               snd at_xy = y /\
               img_height pc <= row_max r)
            r (pastes (draw_row r x y)).
Proof.
  unfold THUMBNAIL_MARGIN_IN_IMAGE.
  induction 1 as [|pc r Hpc Hr IH]; intros x; [constructor|].
  rewrite pastes_draw_row_cons.
  assert (Hrest : 0 <= Z.of_nat (length r) * (width + 10))
    by (apply Z.mul_nonneg_nonneg; lia).
  constructor.
  - cbn [fst snd length]. unfold row_max. cbn [map fold_right].
    repeat split; lia.
  - eapply Forall2_impl; [|apply (IH (x + THUMBNAIL_MARGIN_IN_IMAGE + img_width pc))].
    unfold THUMBNAIL_MARGIN_IN_IMAGE. cbv beta.
    intros q at_xy [Hleft [Hright [Hy Hh]]].
    unfold row_max in *. cbn [length map fold_right].
    repeat split; try assumption; lia.
Qed.

Lemma sum_rows_with_margin (rows : list (list parsedCommentWithImage)) :
  sum_Z (map (fun r => THUMBNAIL_MARGIN_IN_IMAGE + row_max r) rows) =
  sum_Z (map row_max rows) + Z.of_nat (length rows) * THUMBNAIL_MARGIN_IN_IMAGE.
Proof.
  induction rows as [|r rows IH]; [reflexivity|].
  cbn [map sum_Z fold_right length] in *. fold (sum_Z (map row_max rows)).
  fold (sum_Z (map (fun r => THUMBNAIL_MARGIN_IN_IMAGE + row_max r) rows)).
  rewrite IH. lia.
Qed.

Lemma sum_rows_with_margin_nonneg (rows : list (list parsedCommentWithImage)) :
  0 <= sum_Z (map (fun r => THUMBNAIL_MARGIN_IN_IMAGE + row_max r) rows).
Proof.
  induction rows as [|r rows IH]; [cbn; lia|].
  cbn [map sum_Z fold_right].
  fold (sum_Z (map (fun r => THUMBNAIL_MARGIN_IN_IMAGE + row_max r) rows)).
  pose proof (row_max_nonneg r). unfold THUMBNAIL_MARGIN_IN_IMAGE in *. lia.
Qed.

(** The rows drawn from [y] down: every thumbnail within the width of 20
    thumbnails and above where the row after the last one would start. *)
Lemma draw_rows_bounds (width : Z) (l : list parsedCommentWithImage) :
  forall y,
    Forall (fun pc => 0 <= img_width pc <= width) l ->
    Forall2 (fun pc at_xy =>
               THUMBNAIL_MARGIN_IN_IMAGE <= fst at_xy /\
               fst at_xy + img_width pc + THUMBNAIL_MARGIN_IN_IMAGE
               <= THUMBNAIL_MARGIN_IN_IMAGE + 20 * (width + THUMBNAIL_MARGIN_IN_IMAGE) /\
               y <= snd at_xy /\
               snd at_xy + img_height pc + THUMBNAIL_MARGIN_IN_IMAGE
               <= y + sum_Z (map (fun r => THUMBNAIL_MARGIN_IN_IMAGE + row_max r)
                                 (rows_of 20 l)))
            l (pastes (draw_rows (rows_of 20 l) y)).
Proof.
  induction l as [ | l Hne Hlen | r l Hr IH ] using (rows_ind 20 ltac:(lia));
    intros y Hwidth.
  - constructor.
  - rewrite rows_of_short by (try assumption; lia).
    cbn [draw_rows map sum_Z fold_right]. rewrite app_nil_r.
    eapply Forall2_impl; [|apply (draw_row_bounds width l y Hwidth)].
    cbv beta. intros pc at_xy [Hleft [Hright [Hy Hh]]].
    assert (Hw : 0 <= width + THUMBNAIL_MARGIN_IN_IMAGE).
    { destruct l as [|q l']; [congruence|]. inversion Hwidth; subst.
      unfold THUMBNAIL_MARGIN_IN_IMAGE. lia. }
    assert (Hmul : Z.of_nat (length l) * (width + THUMBNAIL_MARGIN_IN_IMAGE)
                   <= 20 * (width + THUMBNAIL_MARGIN_IN_IMAGE))
      by (apply Z.mul_le_mono_nonneg_r; lia).
    unfold THUMBNAIL_MARGIN_IN_IMAGE in *. repeat split; lia.
  - apply Forall_app in Hwidth as [Hwr Hwl].
    rewrite rows_of_app_full by (lia || assumption).
    cbn [draw_rows map sum_Z fold_right]. rewrite pastes_app.
    fold (sum_Z (map (fun r => THUMBNAIL_MARGIN_IN_IMAGE + row_max r) (rows_of 20 l))).
    pose proof (sum_rows_with_margin_nonneg (rows_of 20 l)) as Hsum.
    pose proof (row_max_nonneg r) as Hmax.
    apply Forall2_app.
    + eapply Forall2_impl; [|apply (draw_row_bounds width r y Hwr)].
      cbv beta. intros pc at_xy [Hleft [Hright [Hy Hh]]].
      rewrite Hr in Hright.
      unfold THUMBNAIL_MARGIN_IN_IMAGE in *. repeat split; lia.
    + eapply Forall2_impl;
        [|apply (IH (y + THUMBNAIL_MARGIN_IN_IMAGE + row_max r) Hwl)].
      cbv beta. intros pc at_xy [Hleft [Hright [Hy Hh]]].
      unfold THUMBNAIL_MARGIN_IN_IMAGE in *. repeat split; lia.
Qed.

(** X15.  With the default [columns] of 20, thumbnails no wider than
    [thumbnailWidth], and no row of 20 closed by its tallest thumbnail,
    every thumbnail is pasted inside the canvas, a margin away from each of
    its borders. *)
Theorem poster_fits_with_20_columns (l : list parsedCommentWithImage)
    (thumbnailWidth : Z) :
  Forall (fun pc => 0 <= img_height pc) l ->
  Forall (fun pc => 0 <= img_width pc <= thumbnailWidth) l ->
  tallest_before_closer 20 l = true ->
  Forall2 (inside_canvas
             (poster_size (fst (_createThumbnailPoster l thumbnailWidth
                                  MAX_THUMBNAILS_PER_ROW_IN_IMAGE))))
          l
          (paste_positions (fst (_createThumbnailPoster l thumbnailWidth
                                   MAX_THUMBNAILS_PER_ROW_IN_IMAGE))).
Proof.
  intros Hheight Hwidth Hclose.
  unfold paste_positions.
  rewrite (proj1 (poster_drawn_in_rows_of_20_aux l thumbnailWidth _)).
  unfold _createThumbnailPoster. cbn [fst poster_size].
  unfold MAX_THUMBNAILS_PER_ROW_IN_IMAGE.
  rewrite pass1_height_rows. change (Z.to_nat (Z.max 1 20)) with 20%nat.
  rewrite row_shares by (assumption || lia).
  eapply Forall2_impl; [|apply (draw_rows_bounds thumbnailWidth l _ Hwidth)].
  cbv beta. intros pc at_xy [Hleft [Hright [Htop Hbottom]]].
  rewrite sum_rows_with_margin in Hbottom.
  unfold inside_canvas. cbn [fst snd].
  destruct (trailing_partial 20 l);
    unfold THUMBNAIL_MARGIN_IN_IMAGE in *; repeat split; lia.
Qed.

Lemma poster_fits_with_20_columns_witness :
  Forall2 (inside_canvas (3410, 120)) spec_example
          [(10, 10); (180, 10); (350, 10); (520, 10); (690, 10)].
Proof.
  apply (poster_fits_with_20_columns spec_example 160).
  - repeat constructor; discriminate.
  - repeat constructor; discriminate.
  - reflexivity.
Defined.

(** ** [main] *)

Lemma document_truthy_text (d : document) :
  document_truthy d = true -> d = Doc (document_text d) /\ document_text d <> "".
Proof.
  destruct d as [|text]; cbn; [discriminate|].
  intros H. split; [reflexivity | now apply truthy_nonempty].
Qed.

Lemma parse_loop_all_blocklisted (re_search : search_fn)
    (votes_of : string -> result string) (comments : list Comment.t) :
  Forall (fun c => in_blacklist (Comment.author c) = true) comments ->
  forall acc, parse_loop re_search votes_of comments acc = Returns acc.
Proof.
  induction 1 as [|c l Hc _ IH]; intros acc; cbn [parse_loop]; [reflexivity|].
  unfold parse_one. rewrite Hc. cbn [bind]. apply IH.
Qed.

Section MainFacts.

Variable re_search : search_fn.
Variable votes_of : string -> result string.
Variable py_format : string -> list (string * string) -> result string.
Variable requests_get : string -> result response.
Variable image_open : string -> result Image.
Variable _fetchComments : string -> result (option (list Comment.t)).
Variable stamp : string.

(** What [main] goes through when it returns. *)
Lemma main_cases (fs : disk) (a : args) (o : outcome) :
  main re_search votes_of py_format requests_get image_open _fetchComments stamp fs a
  = Returns o ->
  o = {| exit_code := 1; files := fs; saved_poster := None |} \/
  (exists comments parsedComments,
      _fetchComments (arg_a a) = Returns (Some comments) /\
      _parseComments re_search votes_of comments = Returns parsedComments /\
      parsedComments <> [] /\
      ((arg_img a = true /\
        exists withImages unprocessed,
          _downloadImagesFromParsedComments requests_get image_open parsedComments
            (arg_thumbwidth a) = Returns (withImages, unprocessed) /\
          o = {| exit_code := 0; files := fs;
                 saved_poster :=
                   Some (fst (_createThumbnailPoster withImages (arg_thumbwidth a)
                                (arg_columns a))) |}) \/
       (arg_img a = false /\
        exists text,
          text <> "" /\
          (if arg_html a
           then _createHtmlMarkupFromParsedComments fs parsedComments = Doc text
           else _createMarkdownFromParsedComments py_format fs parsedComments
                = Returns (Doc text)) /\
          o = {| exit_code := 0;
                 files := write_file fs
                            (save_filename (arg_html a) (arg_filename a) stamp) text;
                 saved_poster := None |}))).
Proof.
  unfold main.
  destruct (_fetchComments (arg_a a)) as [[[|c cs]|]|e] eqn:Hfetch; cbn [bind];
    try discriminate; try (intros [= <-]; now left).
  destruct (_parseComments re_search votes_of (c :: cs)) as [[|pc parsed]|e] eqn:Hparse;
    cbn [bind]; try discriminate; try (intros [= <-]; now left).
  destruct (arg_img a) eqn:Himg.
  - destruct (_downloadImagesFromParsedComments _ _ _ _) as [[withImages n]|e] eqn:Hload;
      cbn [bind]; [|discriminate].
    cbn [fst snd _createThumbnailPoster]. intros [= <-]. right.
    exists (c :: cs), (pc :: parsed).
      split; [reflexivity|]. split; [exact Hparse|]. split; [discriminate|].
    left. split; [reflexivity|]. exists withImages, n. split; [exact Hload | reflexivity].
  - destruct (arg_html a) eqn:Hhtml; cbn [bind].
    + destruct (document_truthy (_createHtmlMarkupFromParsedComments fs (pc :: parsed)))
        eqn:Htruthy; cbn [negb]; [|intros [= <-]; now left].
      destruct (document_truthy_text _ Htruthy) as [Hdoc Htext].
      cbn [_saveMarkdownToDisk fst snd negb]. intros [= <-]. right.
      exists (c :: cs), (pc :: parsed).
      split; [reflexivity|]. split; [exact Hparse|]. split; [discriminate|].
      right. split; [reflexivity|]. eexists. repeat split; eassumption.
    + destruct (_createMarkdownFromParsedComments py_format fs (pc :: parsed))
        as [markdown|e] eqn:Hmd; cbn [bind]; [|discriminate].
      destruct (document_truthy markdown) eqn:Htruthy; cbn [negb];
        [|intros [= <-]; now left].
      destruct (document_truthy_text _ Htruthy) as [Hdoc Htext].
      cbn [_saveMarkdownToDisk fst snd negb]. intros [= <-]. right.
      exists (c :: cs), (pc :: parsed).
      split; [reflexivity|]. split; [exact Hparse|]. split; [discriminate|].
      right. split; [reflexivity|]. eexists. repeat split; [eassumption|].
      now rewrite <- Hdoc.
Qed.

End MainFacts.

(** X16.  When [main] returns, the exit code is 0 or 1, and with the exit
    code 1 no file has changed and no poster was saved. *)
Theorem main_failure_leaves_nothing (re_search : search_fn)
    (votes_of : string -> result string)
    (py_format : string -> list (string * string) -> result string)
    (requests_get : string -> result response) (image_open : string -> result Image)
    (_fetchComments : string -> result (option (list Comment.t))) (stamp : string)
    (fs : disk) (a : args) (o : outcome) :
  main re_search votes_of py_format requests_get image_open _fetchComments stamp fs a
  = Returns o ->
  (exit_code o = 0 \/ exit_code o = 1) /\
  (exit_code o = 1 -> files o = fs /\ saved_poster o = None).
Proof.
  intros Hmain.
  destruct (main_cases _ _ _ _ _ _ _ _ _ _ Hmain)
    as [-> | [comments [parsed [_ [_ [_ [[_ [w [n [_ ->]]]] | [_ [text [_ [_ ->]]]]]]]]]]];
    cbn [exit_code files saved_poster]; split; auto; discriminate.
Qed.

Lemma main_failure_leaves_nothing_witness :
  main py_re_search sample_votes sample_format sample_get sample_open
       (fun _ => Returns (Some sample_comments)) "01-14-2022-10-30"
       no_templates (mkArgs "@shaka/round-107" true false 20 160 None)
  = Returns {| exit_code := 1; files := no_templates; saved_poster := None |}.
Proof.
  assert (Hrun : exists o,
             main py_re_search sample_votes sample_format sample_get sample_open
                  (fun _ => Returns (Some sample_comments)) "01-14-2022-10-30"
                  no_templates (mkArgs "@shaka/round-107" true false 20 160 None)
             = Returns o /\ exit_code o = 1)
    by (eexists; split; vm_compute; reflexivity).
  destruct Hrun as [[code files' poster'] [Hrun Hcode]].
  destruct (main_failure_leaves_nothing _ _ _ _ _ _ _ _ _ _ Hrun) as [_ Hnothing].
  cbn [exit_code files saved_poster] in *.
  destruct (Hnothing Hcode) as [-> ->]. subst code. exact Hrun.
Defined.

(** X17.  When [main] exits with 0 in document mode, it has written exactly
    one file, under the generated or the given name, and the file holds the
    non-empty document that the renderer of the chosen mode returned for the
    parsed entries; no poster is saved. *)
Theorem main_document_written (re_search : search_fn)
    (votes_of : string -> result string)
    (py_format : string -> list (string * string) -> result string)
    (requests_get : string -> result response) (image_open : string -> result Image)
    (_fetchComments : string -> result (option (list Comment.t))) (stamp : string)
    (fs : disk) (a : args) (o : outcome) :
  arg_img a = false ->
  main re_search votes_of py_format requests_get image_open _fetchComments stamp fs a
  = Returns o ->
  exit_code o = 0 ->
  saved_poster o = None /\
  exists comments parsedComments text,
    _fetchComments (arg_a a) = Returns (Some comments) /\
    _parseComments re_search votes_of comments = Returns parsedComments /\
    (if arg_html a
     then _createHtmlMarkupFromParsedComments fs parsedComments = Doc text
     else _createMarkdownFromParsedComments py_format fs parsedComments
          = Returns (Doc text)) /\
    text <> "" /\
    files o (save_filename (arg_html a) (arg_filename a) stamp) = Some text /\
    (forall path, path <> save_filename (arg_html a) (arg_filename a) stamp ->
                  files o path = fs path).
Proof.
  intros Himg Hmain Hcode.
  destruct (main_cases _ _ _ _ _ _ _ _ _ _ Hmain)
    as [-> | [comments [parsed [Hfetch [Hparse [_ [[Himg' _] | [_ [text [Htext [Hdoc ->]]]]]]]]]]].
  - discriminate.
  - congruence.
  - cbn [saved_poster files]. split; [reflexivity|].
    exists comments, parsed, text. unfold write_file.
    repeat split; try assumption.
    + now rewrite String.eqb_refl.
    + intros path Hpath. apply String.eqb_neq in Hpath. now rewrite Hpath.
Qed.

Lemma main_document_written_witness :
  exists o,
    main py_re_search sample_votes sample_format sample_get sample_open
         (fun _ => Returns (Some sample_comments)) "01-14-2022-10-30"
         sample_templates (mkArgs "@shaka/round-107" true false 20 160 None)
    = Returns o /\
    exists text,
      files o "01-14-2022-10-30-GeneratedImageSheet.html" = Some text /\ text <> "".
Proof.
  assert (Hrun : exists o,
             main py_re_search sample_votes sample_format sample_get sample_open
                  (fun _ => Returns (Some sample_comments)) "01-14-2022-10-30"
                  sample_templates (mkArgs "@shaka/round-107" true false 20 160 None)
             = Returns o /\ exit_code o = 0)
    by (eexists; split; vm_compute; reflexivity).
  destruct Hrun as [o [Hrun Hcode]].
  exists o. split; [exact Hrun|].
  destruct (main_document_written _ _ _ _ _ _ _ _
              (mkArgs "@shaka/round-107" true false 20 160 None) _ eq_refl Hrun Hcode)
    as [_ [comments [parsed [text [_ [_ [_ [Htext [Hfile _]]]]]]]]].
  exists text. split; [exact Hfile | exact Htext].
Defined.



(** X19.  When every comment fetched is of a blocklisted author, [main]
    exits with 1 and leaves nothing, in every mode and without a search, a
    lookup of votes or a request. *)
Theorem main_all_blocklisted (re_search : search_fn)
    (votes_of : string -> result string)
    (py_format : string -> list (string * string) -> result string)
    (requests_get : string -> result response) (image_open : string -> result Image)
    (_fetchComments : string -> result (option (list Comment.t))) (stamp : string)
    (fs : disk) (a : args) (comments : list Comment.t) :
  _fetchComments (arg_a a) = Returns (Some comments) ->
  Forall (fun c => in_blacklist (Comment.author c) = true) comments ->
  main re_search votes_of py_format requests_get image_open _fetchComments stamp fs a
  = Returns {| exit_code := 1; files := fs; saved_poster := None |}.
Proof.
  intros Hfetch Hall. unfold main. rewrite Hfetch. cbn [bind].
  destruct comments as [|c cs]; [reflexivity|].
  unfold _parseComments. rewrite (parse_loop_all_blocklisted _ _ _ Hall). reflexivity.
Qed.

Lemma main_all_blocklisted_witness :
  main (fun _ _ _ => Raises ReError) (fun _ => Raises RemoteError)
       (fun _ _ => Raises FormatError)
       (fun _ => Raises RemoteError) (fun _ => Raises RemoteError)
       (fun _ => Returns (Some [Comment.mk "abdt" "https://peakd.com/@abdt/x";
                                Comment.mk "v0lga" "https://peakd.com/@v0lga/y"]))
       "01-14-2022-10-30" sample_templates
       (mkArgs "@shaka/round-107" true false 20 160 None)
  = Returns {| exit_code := 1; files := sample_templates; saved_poster := None |}.
Proof.
  apply (main_all_blocklisted _ _ _ _ _ _ _ _ _
           [Comment.mk "abdt" "https://peakd.com/@abdt/x";
            Comment.mk "v0lga" "https://peakd.com/@v0lga/y"]).
  - reflexivity.
  - repeat constructor.
Defined.

(** ** The rewriting of the extracted links *)

Lemma prefix_app (a b : string) : String.prefix a (String.append a b) = true.
Proof.
  induction a as [|c a IH]; [destruct b; reflexivity|].
  cbn. destruct (ascii_dec c c); [exact IH | contradiction].
Qed.

Lemma replace_from_skip (old new a b : string) :
  PyStr.replace_from old new (String.length a) (String.append a b) =
  PyStr.replace_from old new 0 b.
Proof.
  induction a as [|c a IH]; [reflexivity|]. cbn. exact IH.
Qed.

(** An occurrence at the head is replaced and the rest goes on. *)
Lemma replace_prefix (old new s : string) :
  old <> "" ->
  PyStr.replace (String.append old s) old new =
  String.append new (PyStr.replace s old new).
Proof.
  destruct old as [|c old]; [congruence|]. intros _.
  unfold PyStr.replace.
  change (String.append (String c old) s) with (String c (String.append old s)).
  cbn [PyStr.replace_from].
  change (String c (String.append old s)) with (String.append (String c old) s).
  rewrite prefix_app. cbn [String.length Nat.pred].
  now rewrite replace_from_skip.
Qed.

(** Without an occurrence nothing changes. *)
Lemma replace_absent (old new s : string) :
  old <> "" -> PyStr.contains old s = false -> PyStr.replace s old new = s.
Proof.
  destruct old as [|c old]; [congruence|]. intros _.
  unfold PyStr.replace.
  induction s as [|x s IH]; intros Habsent; [reflexivity|].
  cbn [PyStr.contains] in Habsent. apply orb_false_iff in Habsent as [Hhead Htail].
  cbn [PyStr.replace_from]. rewrite Hhead. f_equal. apply IH, Htail.
Qed.

(** X20.  [_parseCommentBody] removes the proxy prefix of the original size
    from the image link: when the image search finds the prefix followed by
    a link that does not contain it again, the entry holds that link; the
    post link is kept as found and the author is the comment's. *)
Theorem parse_body_strips_proxy_prefix (re_search : search_fn) (comment : Comment.t)
    (post url : string) :
  _findByRegex re_search (Comment.body comment) REGEX_POST_URL = Returns post ->
  _findByRegex re_search (Comment.body comment) REGEX_IMAGE_URL
  = Returns (String.append "https://images.hive.blog/0x0/" url) ->
  PyStr.contains "https://images.hive.blog/0x0/" url = false ->
  _parseCommentBody re_search comment =
  Returns {| body_postUrl := post; body_imageUrl := url;
             body_author := Comment.author comment |}.
Proof.
  intros Hpost Himage Habsent.
  unfold _parseCommentBody. rewrite Hpost, Himage. cbn [bind].
  rewrite replace_prefix by discriminate.
  rewrite replace_absent by (discriminate || exact Habsent).
  reflexivity.
Qed.

Lemma parse_body_strips_proxy_prefix_witness :
  _parseCommentBody py_re_search
    (Comment.mk "bob" "![](https://images.hive.blog/0x0/https://files.peakd.com/x.png)")
  = Returns {| body_postUrl := ""; body_imageUrl := "https://files.peakd.com/x.png";
               body_author := "bob" |}.
Proof.
  apply (parse_body_strips_proxy_prefix py_re_search
           (Comment.mk "bob" "![](https://images.hive.blog/0x0/https://files.peakd.com/x.png)")
           "" "https://files.peakd.com/x.png");
    vm_compute; reflexivity.
Defined.

Lemma parse_one_postUrl (re_search : search_fn) (votes_of : string -> result string)
    (comment : Comment.t) (parsed : parsedBody) (pc : parsedComment) :
  parse_one re_search votes_of comment = Returns (Some pc) ->
  _parseCommentBody re_search comment = Returns parsed ->
  postUrl pc = canonical_postUrl (body_postUrl parsed).
Proof.
  unfold parse_one. intros Hone Hbody. rewrite Hbody in Hone.
  destruct (in_blacklist (Comment.author comment)); [discriminate|].
  cbn [bind] in Hone.
  destruct (negb (PyStr.truthy (body_postUrl parsed))); [discriminate|].
  destruct (votes_of _) as [votes|e]; [|discriminate].
  destruct (negb (PyStr.contains "lmac" votes)); [discriminate|].
  destruct (negb (PyStr.truthy (body_imageUrl parsed)));
    injection Hone as <-; reflexivity.
Qed.

Lemma canonical_postUrl_of_host (host rest : string) :
  host = "https://hive.blog" \/ host = "https://ecency.com" \/ host = "https://peakd.com" ->
  PyStr.contains "https://hive.blog" rest = false ->
  PyStr.contains "https://ecency.com" rest = false ->
  canonical_postUrl (String.append host rest) = String.append "https://peakd.com" rest.
Proof.
  intros Hhost Hhive Hecency. unfold canonical_postUrl.
  assert (Hpeakd : PyStr.contains "https://ecency.com"
                     (String.append "https://peakd.com" rest) = false)
    by (cbn; exact Hecency).
  destruct Hhost as [-> | [-> | ->]].
  - rewrite replace_prefix by discriminate.
    rewrite (replace_absent _ _ rest) by (discriminate || exact Hhive).
    apply replace_absent; [discriminate | exact Hpeakd].
  - rewrite (replace_absent "https://hive.blog") by (discriminate || (cbn; exact Hhive)).
    rewrite replace_prefix by discriminate.
    now rewrite replace_absent by (discriminate || exact Hecency).
  - rewrite (replace_absent "https://hive.blog") by (discriminate || (cbn; exact Hhive)).
    apply replace_absent; [discriminate | exact Hpeakd].
Qed.

(** X21.  The post URL of an entry is on the canonical host: when the post
    link found in the comment is one of the three hosts followed by a path
    that names neither alternate host, the entry's post URL is
    [https://peakd.com] followed by that path. *)
Theorem entry_post_url_is_canonical (re_search : search_fn)
    (votes_of : string -> result string) (comment : Comment.t)
    (parsed : parsedBody) (pc : parsedComment) (host rest : string) :
  parse_one re_search votes_of comment = Returns (Some pc) ->
  _parseCommentBody re_search comment = Returns parsed ->
  body_postUrl parsed = String.append host rest ->
  host = "https://hive.blog" \/ host = "https://ecency.com" \/ host = "https://peakd.com" ->
  PyStr.contains "https://hive.blog" rest = false ->
  PyStr.contains "https://ecency.com" rest = false ->
  postUrl pc = String.append "https://peakd.com" rest.
Proof.
  intros Hone Hbody Hpost Hhost Hhive Hecency.
  rewrite (parse_one_postUrl _ _ _ _ _ Hone Hbody), Hpost.
  now apply canonical_postUrl_of_host.
Qed.

Lemma entry_post_url_is_canonical_witness :
  postUrl {| postUrl := "https://peakd.com/hive-174695/@erin/collage";
             imageUrl := DEFAULT_IMAGE_URL; author := "erin"; isDefaultImage := true |}
  = String.append "https://peakd.com" "/hive-174695/@erin/collage".
Proof.
  apply (entry_post_url_is_canonical py_re_search sample_votes
           (Comment.mk "erin" "Entry https://ecency.com/hive-174695/@erin/collage")
           (mkBody "https://ecency.com/hive-174695/@erin/collage" "" "erin")
           _ "https://ecency.com" "/hive-174695/@erin/collage");
    try (vm_compute; reflexivity).
  right. left. reflexivity.
Defined.
